(** * pllb: the lock-guarded facade over BuildKit's llb, and its
      WithInclude deduplication cache

    Shallow embedding of [util/llbutil/pllb/state.go] together with the two
    build-tagged variants of [getInodeBestEffort] ([inode_other.go],
    [inode_windows.go]).

    Conventions.
    - A Go [string] is a Rocq [string]: a sequence of 8-bit characters, so
      [len] is [String.length] and slicing is [substring].
    - A Go [byte] is a [Z] in [0, 256); [[]byte] is [list Z].
    - A [uint64] is a [Z] reduced modulo [2^64] wherever Go would wrap.
    - Package-level variables ([gmu], [withincludCache]), the standard output
      and the allocation of llb source nodes live in an explicit [World]
      threaded through every facade operation. *)

From Stdlib Require Import ZArith List Ascii String Lia Permutation.
From stdpp Require Import gmap strings.

Import ListNotations.
Local Open Scope string_scope.
Local Open Scope list_scope.

(** ** Go standard library: crypto/sha1, encoding/binary, encoding/hex *)

Module bytes.

(** [[]byte(s)] *)
Definition of_string (s : string) : list Z :=
  List.map (fun c => Z.of_N (N_of_ascii c)) (list_ascii_of_string s).

Definition zeros (n : nat) : list Z := List.repeat 0%Z n.

End bytes.

Module binary.
Local Open Scope Z_scope.

(** [uint64(x)]: conversion wraps modulo 2^64. *)
Definition uint64 (x : Z) : Z := x mod 2 ^ 64.

(** The eight little-endian bytes of [v]. *)
Definition le_bytes (v : Z) : list Z :=
  List.map (fun i => Z.land (Z.shiftr v (8 * Z.of_nat i)) 255) (seq 0 8).

(** [binary.LittleEndian.PutUint64(b, v)]: overwrites [b[0..7]] in place and
    leaves the rest of [b] alone; it panics ([None]) when [len(b) < 8]. *)
Definition LittleEndian_PutUint64 (b : list Z) (v : Z) : option (list Z) :=
  if (List.length b <? 8)%nat then None
  else Some (le_bytes v ++ skipn 8 b).

(** Big-endian encodings used by the digest. *)
Definition be_bytes (n : nat) (v : Z) : list Z :=
  List.map (fun i => Z.land (Z.shiftr v (8 * Z.of_nat i)) 255) (rev (seq 0 n)).

Fixpoint be_word (bs : list Z) (acc : Z) : Z :=
  match bs with
  | [] => acc
  | b :: bs' => be_word bs' (Z.lor (Z.shiftl acc 8) b)
  end.

End binary.

Module sha1.
Local Open Scope Z_scope.

(** SHA-1 as in FIPS 180-4, which Go's [crypto/sha1] implements.  The
    streaming object [hash.Hash] is represented by the bytes written to it
    so far: [Write] appends and [Sum] digests what has been written. *)

Definition w32 (x : Z) : Z := x mod 2 ^ 32.

Definition rotl (n x : Z) : Z :=
  w32 (Z.lor (Z.shiftl x n) (Z.shiftr x (32 - n))).

Definition not32 (x : Z) : Z := Z.lxor x 4294967295.

Definition pad (msg : list Z) : list Z :=
  let len := Z.of_nat (List.length msg) in
  msg ++ [128] ++ bytes.zeros (Z.to_nat ((55 - len) mod 64))
      ++ binary.be_bytes 8 (8 * len).

Fixpoint chunks (fuel : nat) (l : list Z) : list (list Z) :=
  match fuel with
  | O => []
  | S fuel' =>
      match l with
      | [] => []
      | _ => firstn 64 l :: chunks fuel' (skipn 64 l)
      end
  end.

Fixpoint words (fuel : nat) (l : list Z) : list Z :=
  match fuel with
  | O => []
  | S fuel' =>
      match l with
      | [] => []
      | _ => binary.be_word (firstn 4 l) 0 :: words fuel' (skipn 4 l)
      end
  end.

(** Message schedule; [rw] holds the words computed so far, newest first. *)
Fixpoint schedule (n : nat) (rw : list Z) : list Z :=
  match n with
  | O => rw
  | S n' =>
      let w := rotl 1 (Z.lxor (nth 2 rw 0)
                      (Z.lxor (nth 7 rw 0)
                      (Z.lxor (nth 13 rw 0) (nth 15 rw 0)))) in
      schedule n' (w :: rw)
  end.

Record regs := Regs { ra : Z; rb : Z; rc : Z; rd : Z; re : Z }.

Definition init : regs :=
  Regs 1732584193 4023233417 2562383102 271733878 3285377520.

Definition round (st : regs) (tw : nat * Z) : regs :=
  let '(t, w) := tw in
  let '(Regs a b c d e) := st in
  let '(f, k) :=
    if (t <? 20)%nat then
      (Z.lor (Z.land b c) (Z.land (not32 b) d), 1518500249)
    else if (t <? 40)%nat then
      (Z.lxor b (Z.lxor c d), 1859775393)
    else if (t <? 60)%nat then
      (Z.lor (Z.lor (Z.land b c) (Z.land b d)) (Z.land c d), 2400959708)
    else
      (Z.lxor b (Z.lxor c d), 3395469782) in
  Regs (w32 (rotl 5 a + f + e + k + w)) a (rotl 30 b) c d.

Definition block (h : regs) (blk : list Z) : regs :=
  let w := rev (schedule 64 (rev (words 16 blk))) in
  let r := fold_left round (combine (seq 0 80) w) h in
  Regs (w32 (ra h + ra r)) (w32 (rb h + rb r)) (w32 (rc h + rc r))
       (w32 (rd h + rd r)) (w32 (re h + re r)).

Definition digest (msg : list Z) : list Z :=
  let p := pad msg in
  let h := fold_left block (chunks (List.length p) p) init in
  List.flat_map (binary.be_bytes 4) [ra h; rb h; rc h; rd h; re h].

(** [h := sha1.New()], [h.Write(p)], [h.Sum(b)]. *)
Definition Hash := list Z.
Definition New : Hash := [].
Definition Write (h : Hash) (p : list Z) : Hash := h ++ p.
Definition Sum (h : Hash) (b : list Z) : list Z := b ++ digest h.

End sha1.

Module hex.
Local Open Scope Z_scope.

Definition hextable : string := "0123456789abcdef".

Definition digit (v : Z) : ascii :=
  match String.get (Z.to_nat v) hextable with
  | Some c => c
  | None => "0"%char
  end.

(** [hex.EncodeToString]: two lower-case digits per byte. *)
Definition EncodeToString (src : list Z) : string :=
  string_of_list_ascii
    (List.flat_map (fun v => [digit (Z.shiftr v 4); digit (Z.land v 15)]) src).

End hex.

(** ** Go standard library: path/filepath and string slicing *)

Module filepath.

(** [os.IsPathSeparator] on the hosts whose separator is the slash (every
    host but Windows); there [filepath.VolumeName] is always empty. *)
Definition Separator : ascii := "/"%char.
Definition IsPathSeparator (c : ascii) : bool := Ascii.eqb c Separator.

(** First loop of [Base], on the reversed path: drop trailing separators. *)
Fixpoint strip_trailing (rp : list ascii) : list ascii :=
  match rp with
  | c :: rp' => if IsPathSeparator c then strip_trailing rp' else rp
  | [] => []
  end.

(** Second loop of [Base], on the reversed path: the characters after the
    last separator (the whole path when it has none). *)
Fixpoint last_element (rp : list ascii) : list ascii :=
  match rp with
  | c :: rp' => if IsPathSeparator c then [] else c :: last_element rp'
  | [] => []
  end.

(** [filepath.Base]. *)
Definition Base (path : string) : string :=
  if String.eqb path "" then "."
  else
    let rp := strip_trailing (rev (list_ascii_of_string path)) in
    match rev (last_element rp) with
    | [] => String Separator ""
    | e => string_of_list_ascii e
    end.

End filepath.

(** [s[:hi]] on a string: a run-time panic ([None]) unless
    [0 <= hi <= len(s)]. *)
Definition slice_to (s : string) (hi : Z) : option string :=
  if ((0 <=? hi) && (hi <=? Z.of_nat (String.length s)))%Z
  then Some (substring 0 (Z.to_nat hi) s)
  else None.

(** ** The operating system, as seen by getInodeBestEffort *)

Module syscall.

Inductive Errno :=
| ENOENT | EACCES | ENOTDIR | ELOOP | ENAMETOOLONG | ENOSYS
| ErrnoOther (code : Z).

(** Only the field the facade reads. *)
Record Stat_t := { Ino : Z }.

Record ByHandleFileInformation := { FileIndexHigh : Z; FileIndexLow : Z }.

Definition Handle := Z.

End syscall.

(** A host is one of the two build configurations, with the system calls its
    variant of [getInodeBestEffort] issues.  A call yields [inl err] or
    [inr value]. *)
Inductive Host :=
| NotWindows (Stat : string -> syscall.Errno + syscall.Stat_t)
| Windows (Open : string -> syscall.Errno + syscall.Handle)
          (GetFileInformationByHandle :
             syscall.Handle -> syscall.Errno + syscall.ByHandleFileInformation).

(** inode_other.go *)
Definition getInodeBestEffort_other
    (Stat : string -> syscall.Errno + syscall.Stat_t) (path : string) : Z :=
  let inode := binary.uint64 0 in
  match Stat path with
  | inr stat => binary.uint64 (syscall.Ino stat)
  | inl _ => inode
  end.

(** inode_windows.go *)
Definition getInodeBestEffort_windows
    (Open : string -> syscall.Errno + syscall.Handle)
    (GetFileInformationByHandle :
       syscall.Handle -> syscall.Errno + syscall.ByHandleFileInformation)
    (path : string) : Z :=
  match Open path with
  | inl _ => 0%Z
  | inr f =>
      match GetFileInformationByHandle f with
      | inl _ => 0%Z
      | inr info =>
          let inode := binary.uint64 (syscall.FileIndexHigh info) in
          let inode := binary.uint64 (Z.shiftl inode 32) in
          let inode :=
            binary.uint64 (inode + binary.uint64 (syscall.FileIndexLow info)) in
          inode
      end
  end.

Definition getInodeBestEffort (host : Host) (path : string) : Z :=
  match host with
  | NotWindows Stat => getInodeBestEffort_other Stat path
  | Windows Open Info => getInodeBestEffort_windows Open Info path
  end.

(** The probe failed: the system call it relies on reported an error. *)
Definition probe_fails (host : Host) (path : string) : Prop :=
  match host with
  | NotWindows Stat => exists e, Stat path = inl e
  | Windows Open Info =>
      (exists e, Open path = inl e)
      \/ (exists f e, Open path = inr f /\ Info f = inl e)
  end.

(** ** getSharedKeyHintFromInclude *)

Section SharedKey.
Variable host : Host.

(** The closure [addToHash]; it captures the hash [h] and the scratch
    buffer [b], both of which it updates. *)
Definition addToHash (hb : sha1.Hash * list Z) (path : string)
    : option (sha1.Hash * list Z) :=
  let '(h, b) := hb in
  let h := sha1.Write h (bytes.of_string path) in
  let inode := getInodeBestEffort host path in
  b ← binary.LittleEndian_PutUint64 b inode;
  let h := sha1.Write h b in
  Some (h, b).

Fixpoint addToHash_range (incl : list string) (hb : sha1.Hash * list Z)
    : option (sha1.Hash * list Z) :=
  match incl with
  | [] => Some hb
  | path :: rest => hb ← addToHash hb path; addToHash_range rest hb
  end.

(** [None] would be the panic of [PutUint64] on a buffer shorter than eight
    bytes; [b] is made with eight, and [getSharedKeyHintFromInclude_eq] shows
    that a key always comes out. *)
Definition getSharedKeyHintFromInclude (name : string) (incl : list string)
    : option string :=
  let h := sha1.New in
  let b := bytes.zeros 8 in
  hb ← addToHash (h, b) name;
  hb ← addToHash_range incl hb;
  Some (hex.EncodeToString (sha1.Sum (fst hb) [])).

End SharedKey.

(** ** fixIncl *)

(** The body of the loop: what becomes of one pattern. *)
Definition fixIncl_one (inc : string) : option string :=
  if String.eqb inc "." then Some "./*"
  else if String.eqb (filepath.Base inc) "." then
    p ← slice_to inc (Z.of_nat (String.length inc) - 1);
    Some (p +:+ "*")
  else Some inc.

Fixpoint fixIncl_range (incl incl2 : list string) : option (list string) :=
  match incl with
  | [] => Some incl2
  | inc :: rest =>
      inc ← fixIncl_one inc;
      fixIncl_range rest (incl2 ++ [inc])
  end.

(** [None] is the run-time panic of the slice expression. *)
Definition fixIncl (incl : list string) : option (list string) :=
  fixIncl_range incl [].

(** ** BuildKit's llb, as far as the facade touches it

    llb is an external library.  A node is represented by the constructor
    call that built it; every source node additionally carries the identity
    of its freshly allocated [*SourceOp], so that two calls of [llb.Local]
    with equal arguments still yield distinguishable nodes. *)

Module llb.

Inductive LocalOption :=
| SessionID (id : string)
| IncludePatterns (p : list string)
| ExcludePatterns (p : list string)
| FollowPaths (p : list string)
| SharedKeyHint (h : string)
| WithCustomName (n : string).

Inductive ImageOption := ImageOpt (tag : string).
Inductive GitOption := GitOpt (tag : string).

Inductive State :=
| Scratch
| Local (node : nat) (name : string) (opts : list LocalOption)
| Image (node : nat) (ref : string) (opts : list ImageOption)
| Git (node : nat) (remote ref : string) (opts : list GitOption).

End llb.

(** ** state.go: State, the package variables, and the effects *)

Record State := mkState {
  st : llb.State;
  localName : string;
  localOpts : list llb.LocalOption
}.

(** [State{st: x}]: the other fields take their zero values. *)
Definition State_of (x : llb.State) : State :=
  {| st := x; localName := ""; localOpts := [] |}.

Inductive PrintfArg :=
| ArgString (s : string)
| ArgInt (n : Z)
| ArgStrings (l : list string).

(** One call of [fmt.Printf], kept unformatted: the format as the source
    spells it, and the arguments. *)
Record PrintfCall := Printf_ { format : string; args : list PrintfArg }.

Record World := mkWorld {
  gmu : bool;                               (* true: the mutex is held *)
  withincludCache : gmap string State;
  llb_nodes : nat;                          (* source nodes built so far *)
  stdout : list PrintfCall
}.

(** [func init()] *)
Definition init : World :=
  {| gmu := false; withincludCache := ∅; llb_nodes := 0; stdout := [] |}.

(** What a call does in a sequential run: it returns, it panics, it waits
    forever on [gmu], or it brings the process down with a fatal run-time
    error, which no [recover] catches and after which nothing runs any
    more, deferred calls included. *)
Inductive Outcome (A : Type) :=
| Returned (a : A) (w : World)
| Panicked (w : World)
| Blocked
| Died.
Arguments Returned {A} a w.
Arguments Panicked {A} w.
Arguments Blocked {A}.
Arguments Died {A}.

Definition M (A : Type) : Type := World -> Outcome A.

#[global] Instance M_ret : MRet M := fun A a w => Returned a w.
#[global] Instance M_bind : MBind M := fun A B f m w =>
  match m w with
  | Returned a w' => f a w'
  | Panicked w' => Panicked w'
  | Blocked => Blocked
  | Died => Died
  end.

(** A [defer]red call runs when the body returns and also when it panics. *)
Definition defer {A} (d : M unit) (body : M A) : M A := fun w =>
  match body w with
  | Returned a w' =>
      match d w' with
      | Returned _ w'' => Returned a w''
      | Panicked w'' => Panicked w''
      | Blocked => Blocked
      | Died => Died
      end
  | Panicked w' =>
      match d w' with
      | Returned _ w'' | Panicked w'' => Panicked w''
      | Blocked => Blocked
      | Died => Died
      end
  | Blocked => Blocked
  | Died => Died
  end.

Definition panics {A} (o : option A) : M A := fun w =>
  match o with
  | Some a => Returned a w
  | None => Panicked w
  end.

Definition set_gmu (b : bool) (w : World) : World :=
  {| gmu := b; withincludCache := withincludCache w;
     llb_nodes := llb_nodes w; stdout := stdout w |}.

Definition gmu_Lock : M unit := fun w =>
  if gmu w then Blocked else Returned tt (set_gmu true w).

(** Unlocking a mutex that is not locked is the fatal run-time error
    "sync: unlock of unlocked mutex": the process exits. *)
Definition gmu_Unlock : M unit := fun w =>
  if gmu w then Returned tt (set_gmu false w) else Died.

Definition Printf (fmt : string) (a : list PrintfArg) : M unit := fun w =>
  Returned tt
    {| gmu := gmu w; withincludCache := withincludCache w;
       llb_nodes := llb_nodes w;
       stdout := stdout w ++ [Printf_ fmt a] |}.

Definition cache_lookup (key : string) : M (option State) := fun w =>
  Returned (withincludCache w !! key) w.

Definition cache_store (key : string) (s : State) : M unit := fun w =>
  Returned tt
    {| gmu := gmu w; withincludCache := <[key := s]> (withincludCache w);
       llb_nodes := llb_nodes w; stdout := stdout w |}.

(** Allocation of a source node inside llb. *)
Definition llb_fresh : M nat := fun w =>
  Returned (llb_nodes w)
    {| gmu := gmu w; withincludCache := withincludCache w;
       llb_nodes := S (llb_nodes w); stdout := stdout w |}.

Definition llb_Local (name : string) (opts : list llb.LocalOption) : M llb.State :=
  n ← llb_fresh; mret (llb.Local n name opts).
Definition llb_Image (ref : string) (opts : list llb.ImageOption) : M llb.State :=
  n ← llb_fresh; mret (llb.Image n ref opts).
Definition llb_Git (remote ref : string) (opts : list llb.GitOption) : M llb.State :=
  n ← llb_fresh; mret (llb.Git n remote ref opts).

(** ** state.go: the facade operations *)

Definition FromRawState (x : llb.State) : M State :=
  gmu_Lock;; defer gmu_Unlock (mret (State_of x)).

Definition Scratch : M State :=
  gmu_Lock;; defer gmu_Unlock (mret (State_of llb.Scratch)).

Definition Local (name : string) (opts : list llb.LocalOption) : M State :=
  gmu_Lock;;
  defer gmu_Unlock (
    x ← llb_Local name opts;
    mret {| st := x; localName := name; localOpts := opts |}).

Definition Image (ref : string) (opts : list llb.ImageOption) : M State :=
  gmu_Lock;; defer gmu_Unlock (x ← llb_Image ref opts; mret (State_of x)).

Definition Git (remote ref : string) (opts : list llb.GitOption) : M State :=
  gmu_Lock;; defer gmu_Unlock (x ← llb_Git remote ref opts; mret (State_of x)).

(** [RawState] returns with the mutex still held; the second component of
    its result is [gmu.Unlock], here the operation [gmu_Unlock]. *)
Definition RawState (s : State) : M llb.State :=
  gmu_Lock;; mret (st s).


(** The loop copying [s.localOpts] into a fresh slice. *)
Definition copy_opts (localOpts : list llb.LocalOption) : list llb.LocalOption :=
  fold_left (fun opts o => opts ++ [o]) localOpts [].

Definition WithInclude (host : Host) (s : State) (incl : list string) : M State :=
  gmu_Lock;;
  defer gmu_Unlock (
    Printf "%q incl %d  elems: %v\n"
      [ArgString (localName s); ArgInt (Z.of_nat (length incl)); ArgStrings incl];;
    if String.eqb (localName s) "" then
      (* state is not local, don't modify it. *)
      mret s
    else
      incl ← panics (fixIncl incl);
      Printf "after fix: %v\n" [ArgStrings incl];;
      key ← panics (getSharedKeyHintFromInclude host (localName s) incl);
      hit ← cache_lookup key;
      match hit with
      | Some st =>
          Printf "re-using cache for %q -> %q %v\n"
            [ArgString key; ArgString (localName s); ArgStrings incl];;
          mret st
      | None =>
          let opts := copy_opts (localOpts s) in
          let opts := opts ++ [llb.IncludePatterns incl] in
          let opts := opts ++ [llb.SharedKeyHint key] in
          Printf "caching %q\n" [ArgString key];;
          x ← llb_Local (localName s) opts;
          let st := State_of x in
          Printf "saving to cache for %q -> %q %v\n"
            [ArgString key; ArgString (localName s); ArgStrings incl];;
          cache_store key st;;
          mret st
      end).

Arguments fixIncl : simpl never.
Arguments getSharedKeyHintFromInclude : simpl never.
Arguments addToHash : simpl never.

(** ** Vocabulary of the statements *)

(** The number a little-endian byte string stands for. *)
Definition le_value (bs : list Z) : Z :=
  fold_right (fun b acc => (b + 256 * acc)%Z) 0%Z bs.

(** What one call of [addToHash] feeds to the hash. *)
Definition hashed (host : Host) (path : string) : list Z :=
  bytes.of_string path ++ binary.le_bytes (getInodeBestEffort host path).

(** A host on which nothing can be statted. *)
Definition host_nothing : Host := NotWindows (fun _ => inl syscall.ENOENT).

(** A host on which every path has inode [ino]. *)
Definition host_const (ino : Z) : Host :=
  NotWindows (fun _ => inr {| syscall.Ino := ino |}).

(** The digest input as the specification words it: the name alone, then
    each path with its identity number. *)
Definition spec_key_input (host : Host) (name : string) (incl : list string)
    : list Z :=
  bytes.of_string name
  ++ flat_map (fun path =>
       bytes.of_string path
       ++ binary.le_bytes (getInodeBestEffort host path)) incl.

(** The node [WithInclude] builds on a miss. *)
Definition filtered (node : nat) (s : State) (incl : list string)
    (key : string) : State :=
  State_of (llb.Local node (localName s)
              (localOpts s ++ [llb.IncludePatterns incl; llb.SharedKeyHint key])).

(** The calls a client can make; [CUnlock] is the release function handed
    out by [RawState]. *)
Inductive Call :=
| CFromRawState (x : llb.State)
| CScratch
| CLocal (name : string) (opts : list llb.LocalOption)
| CImage (ref : string) (opts : list llb.ImageOption)
| CGit (remote ref : string) (opts : list llb.GitOption)
| CRawState (s : State)
| CUnlock
| CWithInclude (host : Host) (s : State) (incl : list string).

Definition world_after {A} (o : Outcome A) : option World :=
  match o with
  | Returned _ w | Panicked w => Some w
  | Blocked | Died => None
  end.

(** The world a call leaves behind, whether it returned or panicked; there
    is none when the call blocks or the process dies. *)
Definition perform (c : Call) (w : World) : option World :=
  match c with
  | CFromRawState x => world_after (FromRawState x w)
  | CScratch => world_after (Scratch w)
  | CLocal name opts => world_after (Local name opts w)
  | CImage ref opts => world_after (Image ref opts w)
  | CGit remote ref opts => world_after (Git remote ref opts w)
  | CRawState s => world_after (RawState s w)
  | CUnlock => world_after (gmu_Unlock w)
  | CWithInclude host s incl => world_after (WithInclude host s incl w)
  end.

(** The worlds a run of the program passes through, from [init] on. *)
Inductive reachable : World -> Prop :=
| reach_init : reachable init
| reach_call w c w' : reachable w -> perform c w = Some w' -> reachable w'.

(** No State in the cache remembers a local-source name. *)
Definition cache_not_local (w : World) : Prop :=
  forall key r, withincludCache w !! key = Some r -> localName r = "".

(** Concrete values used to exercise the statements below. *)
Module demo.

Definition ctx : State :=
  {| st := llb.Local 0 "ctx" [llb.SessionID "s1"];
     localName := "ctx";
     localOpts := [llb.SessionID "s1"] |}.

(** Same name, other options, other node. *)
Definition ctx' : State :=
  {| st := llb.Local 7 "ctx" [llb.SessionID "s2"; llb.ExcludePatterns ["*.o"]];
     localName := "ctx";
     localOpts := [llb.SessionID "s2"; llb.ExcludePatterns ["*.o"]] |}.

Definition alpine : State := State_of (llb.Image 0 "alpine:3" []).

(** The world right after [Local "ctx" ...], resp. [Image "alpine:3"]. *)
Definition w0 : World :=
  {| gmu := false; withincludCache := ∅; llb_nodes := 1; stdout := [] |}.

Definition key : string := "d7b35a2e821df596ce8183d25ce546406e068d7f".

Definition node : State := filtered 1 ctx ["./*"] key.

(** The world after [ctx.WithInclude(["."])] in [w0]. *)
Definition w1 : World :=
  {| gmu := false;
     withincludCache := {[ key := node ]};
     llb_nodes := 2;
     stdout :=
       [Printf_ "%q incl %d  elems: %v\n"
          [ArgString "ctx"; ArgInt 1; ArgStrings ["."]];
        Printf_ "after fix: %v\n" [ArgStrings ["./*"]];
        Printf_ "caching %q\n" [ArgString key];
        Printf_ "saving to cache for %q -> %q %v\n"
          [ArgString key; ArgString "ctx"; ArgStrings ["./*"]]] |}.

(** A Windows host on which no file can be opened. *)
Definition locked_down : Host :=
  Windows (fun _ => inl syscall.EACCES) (fun _ => inl syscall.ENOSYS).

End demo.

(** ** state.go: the chain transformations

    Each of them locks, calls the method of the wrapped [llb.State] and wraps
    what comes back.  llb States are immutable values, so a method is a
    function of the receiver and its arguments; what the function computes is
    llb's business and is left open. *)

Module specs.

(** [specs.Platform] of the OCI image specification. *)
Record Platform := {
  Architecture : string;
  OS : string;
  OSVersion : string;
  OSFeatures : list string;
  Variant : string
}.

End specs.

Inductive ConstraintsOpt := ConstraintsOption (tag : string).

Record LLB := {
  llb_SetMarshalDefaults : llb.State -> list ConstraintsOpt -> llb.State;
  llb_AddEnv : llb.State -> string -> string -> llb.State;
  llb_Dir : llb.State -> string -> llb.State;
  llb_User : llb.State -> string -> llb.State;
  llb_Platform : llb.State -> specs.Platform -> llb.State
}.

Section Transformations.
Variable L : LLB.

Definition SetMarshalDefaults (s : State) (co : list ConstraintsOpt) : M State :=
  gmu_Lock;; defer gmu_Unlock (mret (State_of (llb_SetMarshalDefaults L (st s) co))).

Definition AddEnv (s : State) (key value : string) : M State :=
  gmu_Lock;; defer gmu_Unlock (mret (State_of (llb_AddEnv L (st s) key value))).

Definition Dir (s : State) (str : string) : M State :=
  gmu_Lock;; defer gmu_Unlock (mret (State_of (llb_Dir L (st s) str))).

Definition User (s : State) (v : string) : M State :=
  gmu_Lock;; defer gmu_Unlock (mret (State_of (llb_User L (st s) v))).

Definition Platform (s : State) (p : specs.Platform) : M State :=
  gmu_Lock;; defer gmu_Unlock (mret (State_of (llb_Platform L (st s) p))).

End Transformations.

(** One chain transformation with its arguments. *)
Inductive Transform :=
| TSetMarshalDefaults (co : list ConstraintsOpt)
| TAddEnv (key value : string)
| TDir (str : string)
| TUser (v : string)
| TPlatform (p : specs.Platform).

Definition transform (L : LLB) (t : Transform) (s : State) : M State :=
  match t with
  | TSetMarshalDefaults co => SetMarshalDefaults L s co
  | TAddEnv key value => AddEnv L s key value
  | TDir str => Dir L s str
  | TUser v => User L s v
  | TPlatform p => Platform L s p
  end.

(** The calls of [Call] and the chain transformations together. *)
Inductive Op :=
| OCall (c : Call)
| OTransform (t : Transform) (s : State).

Definition run_op (L : LLB) (o : Op) (w : World) : option World :=
  match o with
  | OCall c => perform c w
  | OTransform t s => world_after (transform L t s w)
  end.

(** A client's calls one after the other; [None] when one of them blocks. *)
Fixpoint run_ops (L : LLB) (ops : list Op) (w : World) : option World :=
  match ops with
  | [] => Some w
  | o :: rest => w' ← run_op L o w; run_ops L rest w'
  end.

Definition is_RawState (o : Op) : bool :=
  match o with OCall (CRawState _) => true | _ => false end.

Definition is_Unlock (o : Op) : bool :=
  match o with OCall CUnlock => true | _ => false end.

(** The identity of the source node at the root of an llb State. *)
Definition node_of (x : llb.State) : option nat :=
  match x with
  | llb.Scratch => None
  | llb.Local n _ _ | llb.Image n _ _ | llb.Git n _ _ _ => Some n
  end.

(** The string with the given bytes, the inverse of [[]byte(s)]. *)
Definition string_of_bytes (bs : list Z) : string :=
  string_of_list_ascii (List.map (fun b => ascii_of_N (Z.to_N b)) bs).

(** The intended normalization of one pattern, on patterns that are not
    empty and do not end in a separator. *)
Definition normalized (inc inc' : string) : Prop :=
  (inc = "." /\ inc' = "./*")
  \/ (exists p, inc = p +:+ "/." /\ inc' = p +:+ "/*")
  \/ (inc <> "." /\ (forall p, inc <> p +:+ "/.") /\ inc' = inc).

(** Not empty and not ending in a separator. *)
Definition clean (inc : string) : Prop :=
  exists p c, inc = p +:+ String c "" /\ filepath.IsPathSeparator c = false.

(** An llb whose methods leave the State as it is; only used to run the
    statements on concrete values. *)
Definition llb_inert : LLB :=
  {| llb_SetMarshalDefaults := fun x _ => x;
     llb_AddEnv := fun x _ _ => x;
     llb_Dir := fun x _ => x;
     llb_User := fun x _ => x;
     llb_Platform := fun x _ => x |}.

(** A host on which only [other] can be statted. *)
Definition host_only (other : string) (ino : Z) : Host :=
  NotWindows (fun path =>
    if String.eqb path other then inr {| syscall.Ino := ino |}
    else inl syscall.ENOENT).

(** What the cache looks like: each entry wraps a local-source node that
    has been built, whose last two options are the include patterns and the
    key it is filed under as shared-key hint; no two entries wrap the same
    node. *)
Definition cache_wf (w : World) : Prop :=
  (forall key r, withincludCache w !! key = Some r ->
     exists node name opts incl,
       name <> "" /\ (node < llb_nodes w)%nat
       /\ r = State_of (llb.Local node name
                (opts ++ [llb.IncludePatterns incl; llb.SharedKeyHint key])))
  /\ (forall k1 k2 r1 r2,
        withincludCache w !! k1 = Some r1 ->
        withincludCache w !! k2 = Some r2 ->
        node_of (st r1) = node_of (st r2) -> k1 = k2).

(** A longer run, for the statements about whole runs. *)
Module demo2.

Definition ops : list Op :=
  [OCall (CLocal "ctx" [llb.SessionID "s1"]);
   OCall (CWithInclude host_nothing demo.ctx ["."]);
   OTransform (TDir "/work") demo.node;
   OCall (CWithInclude host_nothing demo.ctx ["src"])].

Definition key_src : string :=
  Eval vm_compute in
    match getSharedKeyHintFromInclude host_nothing "ctx" ["src"] with
    | Some key => key
    | None => ""
    end.

Definition node_src : State := filtered 2 demo.ctx ["src"] key_src.

Definition w2 : World :=
  match run_ops llb_inert ops init with
  | Some w => w
  | None => init
  end.

End demo2.

(** * Properties *)

(** ** The library models on known values *)

Example sha1_empty :
  hex.EncodeToString (sha1.digest []) = "da39a3ee5e6b4b0d3255bfef95601890afd80709".
Proof. vm_compute. reflexivity. Qed.

Example sha1_abc :
  hex.EncodeToString (sha1.digest (bytes.of_string "abc"))
  = "a9993e364706816aba3e25717850c26c9cd0d89d".
Proof. vm_compute. reflexivity. Qed.

Example sha1_two_blocks :
  hex.EncodeToString (sha1.digest (bytes.of_string
    "abcdbcdecdefdefgefghfghighijhijkijkljklmklmnlmnomnopnopq"))
  = "84983e441c3bd26ebaae4aa1f95129e5e54670f1".
Proof. vm_compute. reflexivity. Qed.

Example Base_dot : filepath.Base "." = ".". Proof. reflexivity. Qed.
Example Base_empty : filepath.Base "" = ".". Proof. reflexivity. Qed.
Example Base_ab_dot : filepath.Base "a/b/." = ".". Proof. reflexivity. Qed.
Example Base_dot_slash : filepath.Base "./" = ".". Proof. reflexivity. Qed.
Example Base_slashes : filepath.Base "//" = "/". Proof. reflexivity. Qed.
Example Base_file : filepath.Base "src/main.go" = "main.go". Proof. reflexivity. Qed.
Example Base_dotdot : filepath.Base "a/.." = "..". Proof. reflexivity. Qed.

Example fixIncl_dot : fixIncl ["."] = Some ["./*"]. Proof. reflexivity. Qed.
Example fixIncl_src_dot : fixIncl ["src/."] = Some ["src/*"]. Proof. reflexivity. Qed.
Example fixIncl_readme : fixIncl ["README.md"] = Some ["README.md"]. Proof. reflexivity. Qed.

(** ** Strings and slices *)

Lemma list_ascii_of_string_app (s t : string) :
  list_ascii_of_string (s +:+ t) = list_ascii_of_string s ++ list_ascii_of_string t.
Proof. induction s as [|c s IH]; simpl; [reflexivity | now rewrite IH]. Qed.

Lemma substring_prefix (p q : string) :
  substring 0 (String.length p) (p +:+ q) = p.
Proof.
  induction p as [|c p IH]; simpl.
  - destruct q; reflexivity.
  - now rewrite IH.
Qed.

Lemma length_append (p q : string) :
  String.length (p +:+ q) = (String.length p + String.length q)%nat.
Proof. induction p as [|c p IH]; simpl; [reflexivity | now rewrite IH]. Qed.

Lemma append_cons (c : ascii) (p q : string) :
  String c p +:+ q = String c (p +:+ q).
Proof. reflexivity. Qed.

Lemma append_assoc' (p q r : string) : (p +:+ q) +:+ r = p +:+ (q +:+ r).
Proof.
  induction p as [|c p IH]; [reflexivity|].
  rewrite !append_cons. f_equal. exact IH.
Qed.

(** Dropping the last character of [p ++ c]. *)
Lemma slice_to_drop_last (p : string) (c : ascii) :
  slice_to (p +:+ String c "") (Z.of_nat (String.length (p +:+ String c "")) - 1)
  = Some p.
Proof.
  unfold slice_to. rewrite length_append. simpl String.length.
  replace (Z.of_nat (String.length p + 1) - 1)%Z with (Z.of_nat (String.length p)) by lia.
  rewrite Nat2Z.id, substring_prefix.
  rewrite (proj2 (Z.leb_le 0 _)) by lia.
  rewrite (proj2 (Z.leb_le _ (Z.of_nat (String.length p + 1)))) by lia.
  reflexivity.
Qed.

Lemma append_last_ne (p : string) (c d : ascii) :
  c <> d -> p +:+ String c "" <> String d "".
Proof.
  intros Hcd. destruct p as [|a p]; simpl.
  - intros H. injection H as H. contradiction.
  - destruct p; simpl; discriminate.
Qed.

(** ** fixIncl is a panicking map over the list *)

Lemma fixIncl_range_mapM (incl incl2 : list string) :
  fixIncl_range incl incl2 = (l ← mapM fixIncl_one incl; Some (incl2 ++ l)).
Proof.
  revert incl2. induction incl as [|inc rest IH]; intros incl2; simpl.
  - now rewrite app_nil_r.
  - destruct (fixIncl_one inc) as [inc'|]; simpl; [|reflexivity].
    rewrite IH. destruct (mapM fixIncl_one rest) as [l|]; simpl; [|reflexivity].
    now rewrite <- app_assoc.
Qed.

Lemma fixIncl_mapM (incl : list string) : fixIncl incl = mapM fixIncl_one incl.
Proof.
  unfold fixIncl. rewrite fixIncl_range_mapM.
  destruct (mapM fixIncl_one incl); reflexivity.
Qed.

Lemma fixIncl_length (incl incl' : list string) :
  fixIncl incl = Some incl' -> length incl' = length incl.
Proof.
  rewrite fixIncl_mapM. intros H. symmetry. exact (length_mapM _ _ _ H).
Qed.

(** The three cases of one pattern. *)

Lemma fixIncl_one_dot : fixIncl_one "." = Some "./*".
Proof. reflexivity. Qed.

Lemma Base_trailing_dot (p : string) : filepath.Base (p +:+ "/.") = ".".
Proof.
  unfold filepath.Base.
  destruct (String.eqb_spec (p +:+ "/.") "") as [E|_].
  - destruct p; discriminate.
  - rewrite list_ascii_of_string_app, rev_app_distr. reflexivity.
Qed.

Lemma fixIncl_one_trailing_dot (p : string) :
  fixIncl_one (p +:+ "/.") = Some (p +:+ "/*").
Proof.
  unfold fixIncl_one. rewrite Base_trailing_dot.
  destruct (String.eqb_spec (p +:+ "/.") ".") as [E|_].
  - destruct p as [|a p]; [discriminate|]. destruct p; discriminate.
  - simpl String.eqb.
    change (p +:+ "/.") with (p +:+ ("/" +:+ ".")).
    rewrite <- append_assoc'.
    rewrite (slice_to_drop_last (p +:+ "/") "."). simpl.
    now rewrite append_assoc'.
Qed.

Lemma fixIncl_one_other (inc : string) :
  filepath.Base inc <> "." -> fixIncl_one inc = Some inc.
Proof.
  intros H. unfold fixIncl_one.
  destruct (String.eqb_spec inc ".") as [->|_]; [now elim H|].
  destruct (String.eqb_spec (filepath.Base inc) "."); [contradiction | reflexivity].
Qed.

(** [Base] of a pattern that is not empty and does not end in a separator is
    its last element. *)
Lemma Base_snoc (p : string) (c : ascii) :
  filepath.IsPathSeparator c = false ->
  filepath.Base (p +:+ String c "")
  = string_of_list_ascii
      (rev (filepath.last_element (rev (list_ascii_of_string p))) ++ [c]).
Proof.
  intros Hc. unfold filepath.Base.
  destruct (String.eqb_spec (p +:+ String c "") "") as [E|_].
  { destruct p; discriminate. }
  rewrite list_ascii_of_string_app, rev_app_distr.
  change (rev (list_ascii_of_string (String c ""))) with [c].
  change ([c] ++ ?l) with (c :: l).
  cbn [filepath.strip_trailing]. rewrite Hc.
  cbn [filepath.last_element]. rewrite Hc.
  cbn [rev].
  destruct (rev (filepath.last_element (rev (list_ascii_of_string p))));
    reflexivity.
Qed.

Lemma last_element_nil (rp : list ascii) :
  filepath.last_element rp = [] ->
  rp = [] \/ exists rp', rp = "/"%char :: rp'.
Proof.
  destruct rp as [|d rp]; [now left|].
  simpl. destruct (filepath.IsPathSeparator d) eqn:Hd; [|discriminate].
  intros _. right. exists rp. apply Ascii.eqb_eq in Hd. now subst d.
Qed.

(** When the final component is ".": for a pattern that is not empty and
    does not end in a separator, [Base] answers "." exactly on "." itself
    and on the patterns ending in "/.". *)
Lemma Base_dot_inv (p : string) (c : ascii) :
  filepath.IsPathSeparator c = false ->
  filepath.Base (p +:+ String c "") = "." ->
  p +:+ String c "" = "." \/ exists q, p +:+ String c "" = q +:+ "/.".
Proof.
  intros Hc. rewrite (Base_snoc p c Hc). intros H.
  apply (f_equal list_ascii_of_string) in H.
  rewrite list_ascii_of_string_of_list_ascii in H. simpl in H.
  destruct (rev (filepath.last_element (rev (list_ascii_of_string p))))
    as [|x l] eqn:El.
  - simpl in H. injection H as ->.
    apply (f_equal (@rev ascii)) in El. rewrite rev_involutive in El.
    simpl in El. apply last_element_nil in El as [E|[rp' E]].
    + left. assert (p = "") as ->; [|reflexivity].
      destruct p as [|a p]; [reflexivity|]. simpl in E.
      destruct (rev (list_ascii_of_string p)); discriminate.
    + right. apply (f_equal (@rev ascii)) in E. rewrite rev_involutive in E.
      simpl in E. exists (string_of_list_ascii (rev rp')).
      rewrite <- (string_of_list_ascii_of_string p), E.
      generalize (rev rp'). clear. intros l.
      induction l as [|a l IH]; [reflexivity|].
      simpl. rewrite !append_cons. f_equal. exact IH.
  - exfalso. simpl in H. injection H as _ H. destruct l; discriminate.
Qed.

Lemma fixIncl_one_unchanged (p : string) (c : ascii) :
  filepath.IsPathSeparator c = false ->
  p +:+ String c "" <> "." ->
  (forall q, p +:+ String c "" <> q +:+ "/.") ->
  fixIncl_one (p +:+ String c "") = Some (p +:+ String c "").
Proof.
  intros Hc Hdot Hcomp. apply fixIncl_one_other. intros HB.
  destruct (Base_dot_inv p c Hc HB) as [E|[q E]]; [contradiction|].
  exact (Hcomp q E).
Qed.

(** ** The bytes behind the cache key *)

Lemma length_le_bytes (v : Z) : length (binary.le_bytes v) = 8%nat.
Proof. reflexivity. Qed.

Lemma PutUint64_8 (b : list Z) (v : Z) :
  length b = 8%nat ->
  binary.LittleEndian_PutUint64 b v = Some (binary.le_bytes v).
Proof.
  intros Hb. unfold binary.LittleEndian_PutUint64. rewrite Hb.
  change (8 <? 8)%nat with false. cbv iota.
  rewrite (skipn_all2 (n := 8) b) by lia. now rewrite app_nil_r.
Qed.

Lemma addToHash_eq (host : Host) (h : sha1.Hash) (b : list Z) (path : string) :
  length b = 8%nat ->
  addToHash host (h, b) path
  = Some (h ++ hashed host path,
          binary.le_bytes (getInodeBestEffort host path)).
Proof.
  intros Hb. unfold addToHash, hashed, sha1.Write.
  rewrite (PutUint64_8 b _ Hb). simpl. now rewrite <- app_assoc.
Qed.

Lemma addToHash_range_eq (host : Host) (incl : list string) :
  forall (h : sha1.Hash) (b : list Z), length b = 8%nat ->
  exists b', length b' = 8%nat /\
    addToHash_range host incl (h, b)
    = Some (h ++ flat_map (hashed host) incl, b').
Proof.
  induction incl as [|path rest IH]; intros h b Hb.
  - exists b. split; [exact Hb|]. simpl. now rewrite app_nil_r.
  - simpl. rewrite (addToHash_eq host h b path Hb). simpl.
    destruct (IH (h ++ hashed host path)
                 (binary.le_bytes (getInodeBestEffort host path))
                 (length_le_bytes _)) as (b' & Hb' & E).
    exists b'. split; [exact Hb'|]. rewrite <- app_assoc in E. exact E.
Qed.

(** The key never fails to be computed, and it is the hex form of the SHA-1
    digest of the [hashed] bytes of the name and of each path in turn. *)
Lemma getSharedKeyHintFromInclude_eq (host : Host) (name : string)
    (incl : list string) :
  getSharedKeyHintFromInclude host name incl
  = Some (hex.EncodeToString
            (sha1.digest (flat_map (hashed host) (name :: incl)))).
Proof.
  unfold getSharedKeyHintFromInclude.
  rewrite (addToHash_eq host sha1.New (bytes.zeros 8) name eq_refl). simpl.
  destruct (addToHash_range_eq host incl (hashed host name)
              (binary.le_bytes (getInodeBestEffort host name))
              (length_le_bytes _)) as (b' & _ & E).
  unfold sha1.New in *. simpl in E.
  etransitivity; [exact (f_equal (fun o => hb ← o;
    Some (hex.EncodeToString (sha1.Sum (fst hb) []))) E)|].
  reflexivity.
Qed.

Lemma getInodeBestEffort_fails (host : Host) (path : string) :
  probe_fails host path -> getInodeBestEffort host path = 0%Z.
Proof.
  destruct host as [Stat|Open Info]; simpl.
  - intros [e E]. unfold getInodeBestEffort_other. now rewrite E.
  - unfold getInodeBestEffort_windows. intros [[e E]|(f & e & E1 & E2)].
    + now rewrite E.
    + now rewrite E1, E2.
Qed.

(** The eight bytes are the little-endian digits of the number. *)
Lemma le_digits_value (v : Z) (n k : nat) :
  le_value (List.map (fun i => Z.land (Z.shiftr v (8 * Z.of_nat i)) 255) (seq k n))
  = ((v / 2 ^ (8 * Z.of_nat k)) mod 2 ^ (8 * Z.of_nat n))%Z.
Proof.
  revert k. induction n as [|n IH]; intros k.
  - simpl. now rewrite Z.mod_1_r.
  - cbn [seq List.map le_value fold_right]. fold (le_value
      (List.map (fun i => Z.land (Z.shiftr v (8 * Z.of_nat i)) 255) (seq (S k) n))).
    rewrite IH.
    change 255%Z with (Z.ones 8). rewrite Z.land_ones by lia.
    rewrite Z.shiftr_div_pow2 by lia.
    replace (8 * Z.of_nat (S n))%Z with (8 + 8 * Z.of_nat n)%Z by lia.
    rewrite Z.pow_add_r by lia.
    rewrite Z.rem_mul_r by lia.
    replace (8 * Z.of_nat (S k))%Z with (8 * Z.of_nat k + 8)%Z by lia.
    rewrite Z.pow_add_r by lia.
    rewrite <- Z.div_div by lia.
    reflexivity.
Qed.

Lemma le_bytes_value (v : Z) :
  le_value (binary.le_bytes v) = binary.uint64 v.
Proof.
  unfold binary.le_bytes, binary.uint64. rewrite le_digits_value.
  simpl Z.of_nat. now rewrite Z.div_1_r.
Qed.

Lemma getInodeBestEffort_uint64 (host : Host) (path : string) :
  binary.uint64 (getInodeBestEffort host path) = getInodeBestEffort host path.
Proof.
  assert (H : forall x, binary.uint64 (binary.uint64 x) = binary.uint64 x).
  { intros x. unfold binary.uint64. apply Z.mod_mod. lia. }
  destruct host as [Stat|Open Info]; simpl.
  - unfold getInodeBestEffort_other. destruct (Stat path); apply H.
  - unfold getInodeBestEffort_windows.
    destruct (Open path) as [|f]; [reflexivity|].
    destruct (Info f); [reflexivity | apply H].
Qed.

(** So the identity number can be read back from what was hashed. *)
Lemma hashed_identity (host : Host) (path : string) :
  le_value (skipn (String.length path) (hashed host path))
  = getInodeBestEffort host path.
Proof.
  unfold hashed, bytes.of_string.
  rewrite skipn_app, skipn_all2.
  2:{ rewrite List.length_map. clear.
      induction path as [|c path IH]; simpl; lia. }
  rewrite List.length_map.
  replace (String.length path - length (list_ascii_of_string path))%nat
    with 0%nat.
  2:{ clear. induction path as [|c path IH]; simpl; lia. }
  rewrite skipn_O, app_nil_l, le_bytes_value.
  apply getInodeBestEffort_uint64.
Qed.

(** The identity number reaches the key. *)
Example key_depends_on_identity :
  getSharedKeyHintFromInclude (host_const 42) "ctx" ["./*"]
  <> getSharedKeyHintFromInclude host_nothing "ctx" ["./*"].
Proof. vm_compute. intros H. discriminate H. Qed.

(** ** Pattern normalization *)

(** C1: normalization is meant to turn "." into "./*", a trailing "."
    component into "*", and to leave every other pattern alone.  [fixIncl]
    decides with [filepath.Base], which also answers "." for a pattern whose
    "." component is followed by separators and for the empty pattern, and
    then overwrites whatever the last character is: "a/./" becomes "a/.*",
    and on the empty pattern the slice expression panics. *)
Theorem fixIncl_slice_slip :
  fixIncl ["a/./"] = Some ["a/.*"] /\ fixIncl ["ok"; ""] = None.
Proof. split; reflexivity. Qed.

(** C10: a pattern that ends with a separator and whose final component
    resolves to "." loses exactly its last character, the separator, and
    gains "*" in its place. *)
Theorem fixIncl_trailing_separator (p : string) :
  filepath.Base (p +:+ "/") = "." ->
  fixIncl [p +:+ "/"] = Some [p +:+ "*"].
Proof.
  intros HB. rewrite fixIncl_mapM. simpl. unfold fixIncl_one.
  rewrite HB.
  destruct (String.eqb_spec (p +:+ "/") ".") as [E|_].
  { exfalso. revert E. apply append_last_ne. discriminate. }
  simpl String.eqb. cbv iota.
  rewrite (slice_to_drop_last p "/"). reflexivity.
Qed.

Lemma fixIncl_trailing_separator_witness :
  fixIncl ["./"] = Some [".*"] /\ fixIncl ["a/./"] = Some ["a/.*"].
Proof.
  split.
  - apply (fixIncl_trailing_separator "."). reflexivity.
  - apply (fixIncl_trailing_separator "a/."). reflexivity.
Defined.

(** ** The cache key *)

(** C2, as stated, fails: the name is hashed through [addToHash] like every
    path, so the eight bytes of its own identity number enter the digest. *)
Lemma key_includes_identity_of_name :
  getSharedKeyHintFromInclude host_nothing "ctx" []
  <> Some (hex.EncodeToString
             (sha1.digest (spec_key_input host_nothing "ctx" []))).
Proof. vm_compute. intros H. discriminate H. Qed.

(** C2, amended: the key is the hex form of the SHA-1 digest of the name
    followed by the 8-byte little-endian identity number of the name, then
    for each include path in order the path followed by the 8-byte
    little-endian identity number of that path; nothing else is hashed. *)
Theorem getSharedKeyHintFromInclude_digest (host : Host) (name : string)
    (incl : list string) :
  getSharedKeyHintFromInclude host name incl
  = Some (hex.EncodeToString (sha1.digest (
      bytes.of_string name
      ++ binary.le_bytes (getInodeBestEffort host name)
      ++ flat_map (fun path =>
           bytes.of_string path
           ++ binary.le_bytes (getInodeBestEffort host path)) incl))).
Proof.
  rewrite getSharedKeyHintFromInclude_eq. simpl. unfold hashed at 1.
  now rewrite <- app_assoc.
Qed.

(** C6: a failing probe is not an error.  [getInodeBestEffort] answers 0,
    [addToHash] hashes the path followed by eight zero bytes, and the key is
    computed as usual with those bytes in the path's place. *)
Theorem getInodeBestEffort_swallows_errors (host : Host) (path : string) :
  probe_fails host path ->
  getInodeBestEffort host path = 0%Z
  /\ (forall (h : sha1.Hash) (b : list Z), length b = 8%nat ->
        addToHash host (h, b) path
        = Some (h ++ bytes.of_string path ++ bytes.zeros 8, bytes.zeros 8))
  /\ (forall name pre post,
        getSharedKeyHintFromInclude host name (pre ++ path :: post)
        = Some (hex.EncodeToString (sha1.digest (
            flat_map (hashed host) (name :: pre)
            ++ (bytes.of_string path ++ bytes.zeros 8)
            ++ flat_map (hashed host) post)))).
Proof.
  intros Hf. pose proof (getInodeBestEffort_fails host path Hf) as E.
  assert (Hh : hashed host path = bytes.of_string path ++ bytes.zeros 8).
  { unfold hashed. rewrite E. reflexivity. }
  split; [exact E|]. split.
  - intros h b Hb. rewrite (addToHash_eq host h b path Hb), Hh, E. reflexivity.
  - intros name pre post. rewrite getSharedKeyHintFromInclude_eq.
    do 3 f_equal. simpl. rewrite flat_map_app. simpl. rewrite Hh.
    now rewrite <- !app_assoc.
Qed.

Lemma getInodeBestEffort_swallows_errors_witness :
  getInodeBestEffort host_nothing "no/such/dir" = 0%Z
  /\ (forall (h : sha1.Hash) (b : list Z), length b = 8%nat ->
        addToHash host_nothing (h, b) "no/such/dir"
        = Some (h ++ bytes.of_string "no/such/dir" ++ bytes.zeros 8,
                bytes.zeros 8))
  /\ (forall name pre post,
        getSharedKeyHintFromInclude host_nothing name
          (pre ++ "no/such/dir" :: post)
        = Some (hex.EncodeToString (sha1.digest (
            flat_map (hashed host_nothing) (name :: pre)
            ++ (bytes.of_string "no/such/dir" ++ bytes.zeros 8)
            ++ flat_map (hashed host_nothing) post)))).
Proof.
  apply (getInodeBestEffort_swallows_errors host_nothing "no/such/dir").
  simpl. exists syscall.ENOENT. reflexivity.
Defined.

(** C7: every occurrence of a path is hashed where it stands, so a
    duplicate contributes twice and the order of the paths reaches the key:
    the same paths in another order give another key. *)
Theorem getSharedKeyHintFromInclude_order_sensitive :
  (forall host name pre path post,
     getSharedKeyHintFromInclude host name (pre ++ path :: post)
     = Some (hex.EncodeToString (sha1.digest (
         flat_map (hashed host) (name :: pre)
         ++ hashed host path
         ++ flat_map (hashed host) post))))
  /\ getSharedKeyHintFromInclude host_nothing "ctx" ["a"; "a"]
     <> getSharedKeyHintFromInclude host_nothing "ctx" ["a"]
  /\ (exists name l1 l2,
        Permutation l1 l2
        /\ getSharedKeyHintFromInclude host_nothing name l1
           <> getSharedKeyHintFromInclude host_nothing name l2).
Proof.
  split; [|split].
  - intros host name pre path post. rewrite getSharedKeyHintFromInclude_eq.
    do 3 f_equal. simpl. rewrite flat_map_app. simpl.
    now rewrite <- !app_assoc.
  - vm_compute. intros H. discriminate H.
  - exists "ctx", ["a"; "b"], ["b"; "a"]. split.
    + apply perm_swap.
    + vm_compute. intros H. discriminate H.
Qed.

(** ** WithInclude, case by case *)

Lemma copy_opts_acc (l acc : list llb.LocalOption) :
  fold_left (fun opts o => opts ++ [o]) l acc = acc ++ l.
Proof.
  revert acc. induction l as [|o l IH]; intros acc; simpl.
  - now rewrite app_nil_r.
  - rewrite IH. now rewrite <- app_assoc.
Qed.

Lemma copy_opts_id (l : list llb.LocalOption) : copy_opts l = l.
Proof. unfold copy_opts. now rewrite copy_opts_acc. Qed.

Ltac run_facade :=
  unfold WithInclude, FromRawState, Scratch, Local, Image, Git, RawState,
    llb_Local, llb_Image, llb_Git, llb_fresh, mbind, mret, M_bind, M_ret,
    defer, gmu_Lock, gmu_Unlock, Printf, panics, cache_lookup, cache_store,
    set_gmu;
  cbn [gmu withincludCache llb_nodes stdout].

Lemma WithInclude_blocked (host : Host) (s : State) (incl : list string)
    (w : World) :
  gmu w = true -> WithInclude host s incl w = Blocked.
Proof. intros Hg. run_facade. now rewrite Hg. Qed.

Lemma WithInclude_passthrough (host : Host) (s : State) (incl : list string)
    (w : World) :
  gmu w = false -> localName s = "" ->
  WithInclude host s incl w
  = Returned s
      {| gmu := false;
         withincludCache := withincludCache w;
         llb_nodes := llb_nodes w;
         stdout := stdout w ++
           [Printf_ "%q incl %d  elems: %v\n"
              [ArgString ""; ArgInt (Z.of_nat (length incl)); ArgStrings incl]] |}.
Proof. intros Hg Hn. run_facade. rewrite Hg, Hn. reflexivity. Qed.

Lemma WithInclude_panics (host : Host) (s : State) (incl : list string)
    (w : World) :
  gmu w = false -> localName s <> "" -> fixIncl incl = None ->
  exists w', WithInclude host s incl w = Panicked w'
    /\ gmu w' = false
    /\ withincludCache w' = withincludCache w
    /\ llb_nodes w' = llb_nodes w.
Proof.
  intros Hg Hn Hfix. run_facade. rewrite Hg.
  apply String.eqb_neq in Hn. rewrite Hn, Hfix.
  eexists. split; [reflexivity|]. repeat split.
Qed.

Lemma WithInclude_hit (host : Host) (s : State) (incl incl' : list string)
    (key : string) (hit : State) (w : World) :
  gmu w = false -> localName s <> "" ->
  fixIncl incl = Some incl' ->
  getSharedKeyHintFromInclude host (localName s) incl' = Some key ->
  withincludCache w !! key = Some hit ->
  exists w', WithInclude host s incl w = Returned hit w'
    /\ gmu w' = false
    /\ withincludCache w' = withincludCache w
    /\ llb_nodes w' = llb_nodes w.
Proof.
  intros Hg Hn Hfix Hkey Hhit. run_facade. rewrite Hg.
  apply String.eqb_neq in Hn. rewrite Hn, Hfix. cbv beta iota.
  rewrite Hkey. cbv beta iota. cbn [withincludCache]. rewrite Hhit.
  eexists. split; [reflexivity|]. repeat split.
Qed.

Lemma WithInclude_miss (host : Host) (s : State) (incl incl' : list string)
    (key : string) (w : World) :
  gmu w = false -> localName s <> "" ->
  fixIncl incl = Some incl' ->
  getSharedKeyHintFromInclude host (localName s) incl' = Some key ->
  withincludCache w !! key = None ->
  exists w',
    WithInclude host s incl w
    = Returned (filtered (llb_nodes w) s incl' key) w'
    /\ gmu w' = false
    /\ withincludCache w'
       = <[key := filtered (llb_nodes w) s incl' key]> (withincludCache w)
    /\ llb_nodes w' = S (llb_nodes w).
Proof.
  intros Hg Hn Hfix Hkey Hmiss. run_facade. rewrite Hg.
  apply String.eqb_neq in Hn. rewrite Hn, Hfix. cbv beta iota.
  rewrite Hkey. cbv beta iota. cbn [withincludCache]. rewrite Hmiss.
  cbv beta iota zeta. cbn [gmu withincludCache llb_nodes stdout].
  unfold filtered. rewrite copy_opts_id, <- app_assoc.
  eexists. split; [reflexivity|]. repeat split.
Qed.

(** Every way a call of [WithInclude] on a local State can end. *)
Lemma WithInclude_returned_inv (host : Host) (s : State) (incl : list string)
    (w w1 : World) (r : State) :
  localName s <> "" ->
  WithInclude host s incl w = Returned r w1 ->
  gmu w = false /\ gmu w1 = false /\
  exists incl' key,
    fixIncl incl = Some incl'
    /\ getSharedKeyHintFromInclude host (localName s) incl' = Some key
    /\ withincludCache w1 !! key = Some r
    /\ ((withincludCache w !! key = Some r
         /\ withincludCache w1 = withincludCache w
         /\ llb_nodes w1 = llb_nodes w)
        \/ (withincludCache w !! key = None
            /\ r = filtered (llb_nodes w) s incl' key
            /\ withincludCache w1 = <[key := r]> (withincludCache w)
            /\ llb_nodes w1 = S (llb_nodes w))).
Proof.
  intros Hn Hret.
  destruct (gmu w) eqn:Hg.
  { rewrite (WithInclude_blocked host s incl w Hg) in Hret. discriminate. }
  destruct (fixIncl incl) as [incl'|] eqn:Hfix.
  2:{ destruct (WithInclude_panics host s incl w Hg Hn Hfix) as (w' & E & _).
      rewrite E in Hret. discriminate. }
  pose proof (getSharedKeyHintFromInclude_eq host (localName s) incl') as Hkey.
  set (key := hex.EncodeToString _) in Hkey.
  destruct (withincludCache w !! key) as [hit|] eqn:Hlook.
  - destruct (WithInclude_hit host s incl incl' key hit w Hg Hn Hfix Hkey Hlook)
      as (w' & E & Hg' & Hc & Hl).
    rewrite E in Hret. injection Hret as -> ->.
    split; [reflexivity|]. split; [exact Hg'|].
    exists incl', key. repeat split; try assumption.
    + now rewrite Hc.
    + left. auto.
  - destruct (WithInclude_miss host s incl incl' key w Hg Hn Hfix Hkey Hlook)
      as (w' & E & Hg' & Hc & Hl).
    rewrite E in Hret. injection Hret as <- ->.
    split; [reflexivity|]. split; [exact Hg'|].
    exists incl', key. repeat split; try assumption.
    + rewrite Hc. apply lookup_insert_eq.
    + right. auto.
Qed.

(** ** Worlds the program can be in *)

Lemma perform_cache (c : Call) (w w' : World) :
  perform c w = Some w' ->
  withincludCache w' = withincludCache w
  \/ exists key node s incl,
       withincludCache w'
       = <[key := filtered node s incl key]> (withincludCache w).
Proof.
  destruct c as [x| |name opts|ref opts|remote ref opts|s| |host s incl];
    cbn [perform].
  1-7: run_facade; destruct (gmu w); cbn [world_after];
       intros H; inversion H; subst; left; reflexivity.
  destruct (gmu w) eqn:Hg.
  { rewrite (WithInclude_blocked host s incl w Hg). discriminate. }
  destruct (String.eqb_spec (localName s) "") as [Hn|Hn].
  { rewrite (WithInclude_passthrough host s incl w Hg Hn).
    cbn [world_after]. intros H. inversion H. left. reflexivity. }
  destruct (fixIncl incl) as [incl'|] eqn:Hfix.
  2:{ destruct (WithInclude_panics host s incl w Hg Hn Hfix)
        as (w0 & E & _ & Hc & _).
      rewrite E. cbn [world_after]. intros H. inversion H. subst. now left. }
  pose proof (getSharedKeyHintFromInclude_eq host (localName s) incl') as Hkey.
  set (key := hex.EncodeToString _) in Hkey.
  destruct (withincludCache w !! key) as [hit|] eqn:Hlook.
  - destruct (WithInclude_hit host s incl incl' key hit w Hg Hn Hfix Hkey Hlook)
      as (w0 & E & _ & Hc & _).
    rewrite E. cbn [world_after]. intros H. inversion H. subst. now left.
  - destruct (WithInclude_miss host s incl incl' key w Hg Hn Hfix Hkey Hlook)
      as (w0 & E & _ & Hc & _).
    rewrite E. cbn [world_after]. intros H. inversion H. subst. right.
    exists key, (llb_nodes w), s, incl'. exact Hc.
Qed.

Lemma reachable_cache_not_local (w : World) :
  reachable w -> cache_not_local w.
Proof.
  induction 1 as [|w c w' Hr IH Hp].
  - intros key r H. unfold init in H. cbn [withincludCache] in H.
    rewrite lookup_empty in H. discriminate.
  - intros key r H.
    destruct (perform_cache c w w' Hp) as [E|(k & node & s & incl & E)];
      rewrite E in H.
    + exact (IH key r H).
    + destruct (decide (k = key)) as [->|Hne].
      * rewrite lookup_insert_eq in H. injection H as <-. reflexivity.
      * rewrite lookup_insert_ne in H by exact Hne. exact (IH key r H).
Qed.

(** The States the non-local constructors return. *)
Lemma Image_not_local (ref : string) (opts : list llb.ImageOption)
    (w w' : World) (s : State) :
  Image ref opts w = Returned s w' -> localName s = "".
Proof.
  run_facade. destruct (gmu w); [discriminate|].
  intros H. inversion H. reflexivity.
Qed.

Lemma Git_not_local (remote ref : string) (opts : list llb.GitOption)
    (w w' : World) (s : State) :
  Git remote ref opts w = Returned s w' -> localName s = "".
Proof.
  run_facade. destruct (gmu w); [discriminate|].
  intros H. inversion H. reflexivity.
Qed.

(** The key depends on the host only through the identity numbers. *)
Lemma getSharedKeyHintFromInclude_ext (host host' : Host) (name : string)
    (incl : list string) :
  (forall path, getInodeBestEffort host' path = getInodeBestEffort host path) ->
  getSharedKeyHintFromInclude host' name incl
  = getSharedKeyHintFromInclude host name incl.
Proof.
  intros Hsame. rewrite !getSharedKeyHintFromInclude_eq. do 3 f_equal.
  apply flat_map_ext. intros path. unfold hashed. now rewrite Hsame.
Qed.

(** ** The filter-application operation *)

Example demo_Local :
  Local "ctx" [llb.SessionID "s1"] init = Returned demo.ctx demo.w0.
Proof. reflexivity. Qed.

Example demo_Image : Image "alpine:3" [] init = Returned demo.alpine demo.w0.
Proof. reflexivity. Qed.

Example demo_first_call :
  WithInclude host_nothing demo.ctx ["."] demo.w0 = Returned demo.node demo.w1.
Proof. vm_compute. reflexivity. Qed.

(** A second call while the mutex is held, as after [RawState], never
    returns. *)
Example demo_blocked :
  (RawState demo.ctx;; WithInclude host_nothing demo.ctx ["."]) demo.w0
  = Blocked.
Proof. reflexivity. Qed.

(** Calling the release function a second time brings the process down. *)
Example demo_double_unlock :
  (RawState demo.ctx;; gmu_Unlock;; gmu_Unlock) demo.w0 = Died.
Proof. reflexivity. Qed.

(** The empty pattern makes the call panic; the deferred unlock still runs
    and the cache is as before. *)
Example demo_panic :
  exists w, WithInclude host_nothing demo.ctx [""] demo.w1 = Panicked w
    /\ gmu w = false /\ withincludCache w = withincludCache demo.w1.
Proof. eexists. split; [vm_compute; reflexivity|]. split; reflexivity. Qed.

(** C3: on a State without a recorded local-source name, [WithInclude]
    returns the receiver itself; the cache is handed on untouched and never
    looked at, no node is built, and only the first diagnostic line is
    printed. *)
Theorem WithInclude_not_local (host : Host) (s : State) (incl : list string)
    (w : World) :
  gmu w = false ->
  localName s = "" ->
  WithInclude host s incl w
  = Returned s
      {| gmu := false;
         withincludCache := withincludCache w;
         llb_nodes := llb_nodes w;
         stdout := stdout w ++
           [Printf_ "%q incl %d  elems: %v\n"
              [ArgString ""; ArgInt (Z.of_nat (length incl)); ArgStrings incl]] |}.
Proof. exact (WithInclude_passthrough host s incl w). Qed.

Lemma WithInclude_not_local_witness :
  WithInclude host_nothing demo.alpine ["src/."; ""] demo.w1
  = Returned demo.alpine
      {| gmu := false;
         withincludCache := withincludCache demo.w1;
         llb_nodes := llb_nodes demo.w1;
         stdout := stdout demo.w1 ++
           [Printf_ "%q incl %d  elems: %v\n"
              [ArgString ""; ArgInt (Z.of_nat (length ["src/."; ""]));
               ArgStrings ["src/."; ""]]] |}.
Proof.
  apply (WithInclude_not_local host_nothing demo.alpine ["src/."; ""] demo.w1);
    reflexivity.
Defined.

(** C5: on a miss, [WithInclude] builds a local-source node from the
    receiver's name and its recorded options followed by the include
    patterns (normalized) and the shared-key hint (the key), stores the new
    State under the key and returns it. *)
Theorem WithInclude_builds_on_miss (host : Host) (s : State)
    (incl incl' : list string) (key : string) (w : World) :
  gmu w = false ->
  localName s <> "" ->
  fixIncl incl = Some incl' ->
  getSharedKeyHintFromInclude host (localName s) incl' = Some key ->
  withincludCache w !! key = None ->
  exists w',
    WithInclude host s incl w
    = Returned
        {| st := llb.Local (llb_nodes w) (localName s)
                   (localOpts s
                    ++ [llb.IncludePatterns incl'; llb.SharedKeyHint key]);
           localName := "";
           localOpts := [] |} w'
    /\ withincludCache w'
       = <[key := {| st := llb.Local (llb_nodes w) (localName s)
                            (localOpts s
                             ++ [llb.IncludePatterns incl';
                                 llb.SharedKeyHint key]);
                     localName := "";
                     localOpts := [] |}]> (withincludCache w)
    /\ llb_nodes w' = S (llb_nodes w)
    /\ gmu w' = false.
Proof.
  intros Hg Hn Hfix Hkey Hmiss.
  destruct (WithInclude_miss host s incl incl' key w Hg Hn Hfix Hkey Hmiss)
    as (w' & E & Hg' & Hc & Hl).
  exists w'. unfold filtered, State_of in *. auto.
Qed.

Lemma WithInclude_builds_on_miss_witness :
  exists w',
    WithInclude host_nothing demo.ctx ["."] demo.w0
    = Returned
        {| st := llb.Local (llb_nodes demo.w0) (localName demo.ctx)
                   (localOpts demo.ctx
                    ++ [llb.IncludePatterns ["./*"];
                        llb.SharedKeyHint demo.key]);
           localName := "";
           localOpts := [] |} w'
    /\ withincludCache w'
       = <[demo.key :=
             {| st := llb.Local (llb_nodes demo.w0) (localName demo.ctx)
                        (localOpts demo.ctx
                         ++ [llb.IncludePatterns ["./*"];
                             llb.SharedKeyHint demo.key]);
                localName := "";
                localOpts := [] |}]> (withincludCache demo.w0)
    /\ llb_nodes w' = S (llb_nodes demo.w0)
    /\ gmu w' = false.
Proof.
  apply (WithInclude_builds_on_miss host_nothing demo.ctx ["."] ["./*"]
           demo.key demo.w0).
  - reflexivity.
  - intros H. discriminate H.
  - reflexivity.
  - vm_compute. reflexivity.
  - reflexivity.
Defined.

(** C9: in any world the program can reach, the State that [WithInclude]
    returns for a local State has no recorded local-source name, whether it
    was just built or came from the cache; a further [WithInclude] on it,
    with any include list, returns it unchanged and leaves the cache and the
    node count alone. *)
Theorem WithInclude_result_not_local (host : Host) (s : State)
    (P : list string) (w w1 : World) (r : State) :
  reachable w ->
  localName s <> "" ->
  WithInclude host s P w = Returned r w1 ->
  localName r = ""
  /\ forall host' Q, exists w2,
       WithInclude host' r Q w1 = Returned r w2
       /\ withincludCache w2 = withincludCache w1
       /\ llb_nodes w2 = llb_nodes w1.
Proof.
  intros Hr Hn Hret.
  destruct (WithInclude_returned_inv host s P w w1 r Hn Hret)
    as (_ & Hg1 & P' & key & _ & _ & _ & Hcase).
  assert (Hname : localName r = "").
  { destruct Hcase as [(Hlook & _)|(_ & -> & _)].
    - exact (reachable_cache_not_local w Hr key r Hlook).
    - reflexivity. }
  split; [exact Hname|].
  intros host' Q. eexists. split.
  - exact (WithInclude_passthrough host' r Q w1 Hg1 Hname).
  - split; reflexivity.
Qed.

Lemma WithInclude_result_not_local_witness :
  localName demo.node = ""
  /\ forall host' Q, exists w2,
       WithInclude host' demo.node Q demo.w1 = Returned demo.node w2
       /\ withincludCache w2 = withincludCache demo.w1
       /\ llb_nodes w2 = llb_nodes demo.w1.
Proof.
  apply (WithInclude_result_not_local host_nothing demo.ctx ["."]
           demo.w0 demo.w1 demo.node).
  - apply (reach_call init (CLocal "ctx" [llb.SessionID "s1"]));
      [apply reach_init | reflexivity].
  - intros H. discriminate H.
  - vm_compute. reflexivity.
Defined.


(** * Further properties of the code *)

(** ** fixIncl beyond the cited cases *)

Lemma fixIncl_one_None (inc : string) : fixIncl_one inc = None <-> inc = "".
Proof.
  split.
  - destruct inc as [|a inc]; [reflexivity|].
    unfold fixIncl_one.
    destruct (String.eqb (String a inc) "."); [discriminate|].
    destruct (String.eqb (filepath.Base (String a inc)) "."); [|discriminate].
    unfold slice_to. cbn [String.length].
    rewrite (proj2 (Z.leb_le 0 _)) by lia.
    rewrite (proj2 (Z.leb_le _ (Z.of_nat (S (String.length inc))))) by lia.
    discriminate.
  - intros ->. reflexivity.
Qed.

Lemma fixIncl_None (incl : list string) :
  fixIncl incl = None <-> In "" incl.
Proof.
  rewrite fixIncl_mapM, mapM_None, Exists_exists. split.
  - intros (inc & Hin & Hnone). apply fixIncl_one_None in Hnone. subst inc.
    apply list_elem_of_In. exact Hin.
  - intros Hin. exists "". split; [apply list_elem_of_In; exact Hin | reflexivity].
Qed.

(** X1: the normalization panics exactly on the lists that contain the
    empty pattern; every other list is normalized. *)
Theorem fixIncl_panics_iff_empty_pattern (incl : list string) :
  fixIncl incl = None <-> In "" incl.
Proof. exact (fixIncl_None incl). Qed.

Lemma Base_snoc_dot (p : string) (c : ascii) :
  filepath.IsPathSeparator c = false ->
  filepath.Base (p +:+ String c "") = "." -> c = "."%char.
Proof.
  intros Hc HB. destruct (Base_dot_inv p c Hc HB) as [E|[q E]].
  - destruct p as [|a p].
    + injection E as ->. reflexivity.
    + rewrite append_cons in E. injection E as _ E. destruct p; discriminate.
  - apply (f_equal list_ascii_of_string) in E.
    rewrite !list_ascii_of_string_app in E.
    change (list_ascii_of_string "/.") with (["/"] ++ ["."])%char in E.
    rewrite app_assoc in E. simpl list_ascii_of_string in E.
    apply app_inj_tail in E. tauto.
Qed.

Lemma fixIncl_one_fixed (inc inc' : string) :
  fixIncl_one inc = Some inc' -> fixIncl_one inc' = Some inc'.
Proof.
  unfold fixIncl_one at 1.
  destruct (String.eqb_spec inc ".") as [->|Hdot].
  { intros H. injection H as <-. reflexivity. }
  destruct (String.eqb_spec (filepath.Base inc) ".") as [HB|HB].
  - destruct (slice_to inc (Z.of_nat (String.length inc) - 1)) as [p|];
      [|discriminate].
    simpl. intros H. injection H as <-.
    apply fixIncl_one_other. intros HB'.
    apply Base_snoc_dot in HB'; [discriminate | reflexivity].
  - intros H. injection H as <-. now apply fixIncl_one_other.
Qed.

(** X2: normalizing twice is normalizing once: whatever [fixIncl] returns,
    it returns unchanged when given it again. *)
Theorem fixIncl_idempotent (incl incl' : list string) :
  fixIncl incl = Some incl' -> fixIncl incl' = Some incl'.
Proof.
  rewrite !fixIncl_mapM, !mapM_Some. intros H.
  induction H as [|inc inc' l l' H1 _ IH]; constructor.
  - exact (fixIncl_one_fixed inc inc' H1).
  - exact IH.
Qed.

Lemma fixIncl_idempotent_witness :
  fixIncl ["./*"; "a/.*"; "src/*"] = Some ["./*"; "a/.*"; "src/*"].
Proof.
  apply (fixIncl_idempotent ["."; "a/./"; "src/."]). reflexivity.
Defined.

Lemma fixIncl_one_clean (inc : string) :
  clean inc -> exists inc', fixIncl_one inc = Some inc' /\ normalized inc inc'.
Proof.
  intros (p & c & -> & Hc).
  destruct (String.eqb_spec (p +:+ String c "") ".") as [E|Hdot].
  { exists "./*". rewrite E. split; [reflexivity | left; auto]. }
  destruct (String.eqb_spec (filepath.Base (p +:+ String c "")) ".") as [HB|HB].
  - destruct (Base_dot_inv p c Hc HB) as [E|[q E]]; [contradiction|].
    exists (q +:+ "/*"). rewrite E. split.
    + apply fixIncl_one_trailing_dot.
    + right. left. exists q. auto.
  - exists (p +:+ String c ""). split.
    + now apply fixIncl_one_other.
    + right. right. split; [exact Hdot|]. split; [|reflexivity].
      intros q E. apply HB. rewrite E. apply Base_trailing_dot.
Qed.

(** X3: on patterns that are not empty and do not end in a separator,
    [fixIncl] is the intended normalization, position by position: "."
    becomes "./*", a pattern ending in "/." gets "/*" instead, and every
    other pattern is kept. *)
Theorem fixIncl_on_clean_patterns (incl : list string) :
  Forall clean incl ->
  exists incl', fixIncl incl = Some incl' /\ Forall2 normalized incl incl'.
Proof.
  intros Hclean. rewrite fixIncl_mapM.
  induction Hclean as [|inc l Hinc _ IH].
  - exists []. split; [reflexivity | constructor].
  - destruct (fixIncl_one_clean inc Hinc) as (inc' & E & Hn).
    destruct IH as (l' & El & Hl).
    exists (inc' :: l'). split; [|now constructor].
    simpl. rewrite E. simpl. rewrite El. reflexivity.
Qed.

Lemma fixIncl_on_clean_patterns_witness :
  exists incl',
    fixIncl ["."; "src/."; "README.md"] = Some incl'
    /\ Forall2 normalized ["."; "src/."; "README.md"] incl'.
Proof.
  apply (fixIncl_on_clean_patterns ["."; "src/."; "README.md"]).
  repeat constructor.
  - exists "", "."%char. split; reflexivity.
  - exists "src/", "."%char. split; reflexivity.
  - exists "README.m", "d"%char. split; reflexivity.
Defined.

(** ** The identity probe and the key, further *)

(** X4: on Windows, when the file opens and its information is read, the
    identity number is the 64-bit file index: the high half shifted by 32
    plus the low half, from which both halves can be read back. *)
Theorem getInodeBestEffort_windows_index
    (Open : string -> syscall.Errno + syscall.Handle)
    (Info : syscall.Handle -> syscall.Errno + syscall.ByHandleFileInformation)
    (path : string) (f : syscall.Handle)
    (info : syscall.ByHandleFileInformation) :
  Open path = inr f ->
  Info f = inr info ->
  (0 <= syscall.FileIndexHigh info < 2 ^ 32)%Z ->
  (0 <= syscall.FileIndexLow info < 2 ^ 32)%Z ->
  getInodeBestEffort (Windows Open Info) path
  = (syscall.FileIndexHigh info * 2 ^ 32 + syscall.FileIndexLow info)%Z
  /\ Z.shiftr (getInodeBestEffort (Windows Open Info) path) 32
     = syscall.FileIndexHigh info
  /\ Z.land (getInodeBestEffort (Windows Open Info) path) (Z.ones 32)
     = syscall.FileIndexLow info.
Proof.
  intros HO HI Hhi Hlo. cbn [getInodeBestEffort].
  unfold getInodeBestEffort_windows. rewrite HO, HI.
  destruct info as [hi lo]. cbn [syscall.FileIndexHigh syscall.FileIndexLow] in *.
  unfold binary.uint64. rewrite Z.shiftl_mul_pow2 by lia.
  change (2 ^ 32)%Z with 4294967296%Z in *.
  change (2 ^ 64)%Z with 18446744073709551616%Z.
  rewrite (Z.mod_small hi) by lia.
  rewrite (Z.mod_small (hi * 4294967296)) by lia.
  rewrite (Z.mod_small lo) by lia.
  rewrite (Z.mod_small (hi * 4294967296 + lo)) by lia.
  split; [reflexivity|]. split.
  - rewrite Z.shiftr_div_pow2 by lia. change (2 ^ 32)%Z with 4294967296%Z.
    symmetry. apply (Z.div_unique _ _ hi lo); lia.
  - rewrite Z.land_ones by lia. change (2 ^ 32)%Z with 4294967296%Z.
    symmetry. apply (Z.mod_unique _ _ hi lo); lia.
Qed.

Lemma getInodeBestEffort_windows_index_witness :
  getInodeBestEffort
    (Windows (fun _ => inr 3%Z)
       (fun _ => inr {| syscall.FileIndexHigh := 5; syscall.FileIndexLow := 9 |}))
    "C:/src"
  = (5 * 2 ^ 32 + 9)%Z
  /\ Z.shiftr (getInodeBestEffort
       (Windows (fun _ => inr 3%Z)
          (fun _ => inr {| syscall.FileIndexHigh := 5; syscall.FileIndexLow := 9 |}))
       "C:/src") 32 = 5%Z
  /\ Z.land (getInodeBestEffort
       (Windows (fun _ => inr 3%Z)
          (fun _ => inr {| syscall.FileIndexHigh := 5; syscall.FileIndexLow := 9 |}))
       "C:/src") (Z.ones 32) = 9%Z.
Proof.
  apply (getInodeBestEffort_windows_index
           (fun _ => inr 3%Z)
           (fun _ => inr {| syscall.FileIndexHigh := 5; syscall.FileIndexLow := 9 |})
           "C:/src" 3%Z
           {| syscall.FileIndexHigh := 5; syscall.FileIndexLow := 9 |});
    try reflexivity; simpl; lia.
Defined.

(** X5: one call of [addToHash] appends the path and then eight bytes; the
    eight bytes stay in the scratch buffer and are the little-endian digits
    of the identity number, which can be read back from them. *)
Theorem addToHash_roundtrip (host : Host) (h : sha1.Hash) (b : list Z)
    (path : string) :
  length b = 8%nat ->
  exists b',
    addToHash host (h, b) path = Some (h ++ bytes.of_string path ++ b', b')
    /\ length b' = 8%nat
    /\ le_value b' = getInodeBestEffort host path.
Proof.
  intros Hb. exists (binary.le_bytes (getInodeBestEffort host path)).
  split; [exact (addToHash_eq host h b path Hb)|].
  split; [reflexivity|].
  rewrite le_bytes_value. apply getInodeBestEffort_uint64.
Qed.

Lemma addToHash_roundtrip_witness :
  exists b',
    addToHash (host_const 258) ([], bytes.zeros 8) "src"
    = Some ([] ++ bytes.of_string "src" ++ b', b')
    /\ length b' = 8%nat
    /\ le_value b' = getInodeBestEffort (host_const 258) "src".
Proof.
  apply (addToHash_roundtrip (host_const 258) [] (bytes.zeros 8) "src").
  reflexivity.
Defined.

Lemma flat_map_hashed_ext (host host' : Host) (l : list string) :
  (forall path, In path l ->
     getInodeBestEffort host' path = getInodeBestEffort host path) ->
  flat_map (hashed host') l = flat_map (hashed host) l.
Proof.
  induction l as [|p l IH]; intros H; [reflexivity|].
  cbn [flat_map]. rewrite IH by (intros q Hq; apply H; now right).
  unfold hashed at 1 3. rewrite (H p) by now left. reflexivity.
Qed.

Lemma key_ext_in (host host' : Host) (name : string) (incl : list string) :
  (forall path, In path (name :: incl) ->
     getInodeBestEffort host' path = getInodeBestEffort host path) ->
  getSharedKeyHintFromInclude host' name incl
  = getSharedKeyHintFromInclude host name incl.
Proof.
  intros H. rewrite !getSharedKeyHintFromInclude_eq. do 3 f_equal.
  now apply flat_map_hashed_ext.
Qed.

(** X6: the key looks at the file system only through the identity numbers
    of the name and of the listed paths: two hosts that agree on those give
    the same key, whatever else differs between them. *)
Theorem getSharedKeyHintFromInclude_local (host host' : Host) (name : string)
    (incl : list string) :
  (forall path, In path (name :: incl) ->
     getInodeBestEffort host' path = getInodeBestEffort host path) ->
  getSharedKeyHintFromInclude host' name incl
  = getSharedKeyHintFromInclude host name incl.
Proof. exact (key_ext_in host host' name incl). Qed.

Lemma getSharedKeyHintFromInclude_local_witness :
  getSharedKeyHintFromInclude (host_only "elsewhere" 77) "ctx" ["./*"]
  = getSharedKeyHintFromInclude host_nothing "ctx" ["./*"].
Proof.
  apply (getSharedKeyHintFromInclude_local host_nothing
           (host_only "elsewhere" 77) "ctx" ["./*"]).
  intros path [<-|[<-|[]]]; reflexivity.
Defined.

Lemma length_EncodeToString (src : list Z) :
  String.length (hex.EncodeToString src) = (2 * length src)%nat.
Proof.
  unfold hex.EncodeToString.
  induction src as [|v src IH]; [reflexivity|].
  cbn [flat_map app string_of_list_ascii String.length length].
  rewrite IH. lia.
Qed.

Lemma length_digest (msg : list Z) : length (sha1.digest msg) = 20%nat.
Proof. unfold sha1.digest. reflexivity. Qed.

Lemma get_In (n : nat) (s : string) (c : ascii) :
  String.get n s = Some c -> In c (list_ascii_of_string s).
Proof.
  revert n. induction s as [|a s IH]; intros n; [discriminate|].
  destruct n as [|n]; simpl.
  - intros H. injection H as ->. now left.
  - intros H. right. exact (IH n H).
Qed.

Lemma digit_hex (v : Z) : In (hex.digit v) (list_ascii_of_string hex.hextable).
Proof.
  unfold hex.digit.
  destruct (String.get (Z.to_nat v) hex.hextable) as [c|] eqn:E.
  - exact (get_In _ _ _ E).
  - now left.
Qed.

(** X7: a key is always produced, and it is a string of forty lower-case
    hexadecimal digits, whatever the name, the paths and the host. *)
Theorem getSharedKeyHintFromInclude_shape (host : Host) (name : string)
    (incl : list string) :
  exists key,
    getSharedKeyHintFromInclude host name incl = Some key
    /\ String.length key = 40%nat
    /\ forall c, In c (list_ascii_of_string key) ->
         In c (list_ascii_of_string "0123456789abcdef").
Proof.
  eexists. split; [apply getSharedKeyHintFromInclude_eq|]. split.
  - now rewrite length_EncodeToString, length_digest.
  - intros c. unfold hex.EncodeToString.
    rewrite list_ascii_of_string_of_list_ascii. rewrite in_flat_map.
    intros (v & _ & [<-|[<-|[]]]); apply digit_hex.
Qed.

Lemma bytes_of_string_app (s t : string) :
  bytes.of_string (s +:+ t) = bytes.of_string s ++ bytes.of_string t.
Proof.
  unfold bytes.of_string. rewrite list_ascii_of_string_app.
  apply List.map_app.
Qed.

Lemma bytes_of_string_of_bytes (bs : list Z) :
  Forall (fun b => 0 <= b < 256)%Z bs ->
  bytes.of_string (string_of_bytes bs) = bs.
Proof.
  unfold bytes.of_string, string_of_bytes.
  rewrite list_ascii_of_string_of_list_ascii.
  induction 1 as [|b bs Hb _ IH]; [reflexivity|].
  cbn [List.map]. rewrite IH. f_equal.
  rewrite N_ascii_embedding by lia. lia.
Qed.

Lemma le_bytes_range (v : Z) :
  Forall (fun b => 0 <= b < 256)%Z (binary.le_bytes v).
Proof.
  unfold binary.le_bytes. apply List.Forall_forall. intros b Hb.
  apply in_map_iff in Hb as (i & <- & _).
  change 255%Z with (Z.ones 8). rewrite Z.land_ones by lia.
  apply Z.mod_pos_bound. lia.
Qed.

(** X8: nothing separates one path from the next in what is hashed.  Two
    consecutive paths [p] and [q] give the same key as the single path made
    of [p], the eight identity bytes of [p], and [q], as soon as that path
    has the identity number of [q]. *)
Theorem getSharedKeyHintFromInclude_unframed (host : Host) (name : string)
    (pre post : list string) (p q : string) :
  getInodeBestEffort host
    (p +:+ string_of_bytes (binary.le_bytes (getInodeBestEffort host p)) +:+ q)
  = getInodeBestEffort host q ->
  getSharedKeyHintFromInclude host name (pre ++ p :: q :: post)
  = getSharedKeyHintFromInclude host name
      (pre ++ (p +:+ string_of_bytes
                       (binary.le_bytes (getInodeBestEffort host p)) +:+ q)
           :: post).
Proof.
  intros Hq. rewrite !getSharedKeyHintFromInclude_eq. do 3 f_equal.
  cbn [flat_map]. f_equal. rewrite !flat_map_app. f_equal.
  cbn [flat_map]. rewrite app_assoc. f_equal.
  unfold hashed. rewrite Hq, !bytes_of_string_app.
  rewrite bytes_of_string_of_bytes by apply le_bytes_range.
  now rewrite <- !app_assoc.
Qed.

Lemma getSharedKeyHintFromInclude_unframed_witness :
  getSharedKeyHintFromInclude host_nothing "ctx" ([] ++ "a" :: "b" :: [])
  = getSharedKeyHintFromInclude host_nothing "ctx"
      ([] ++ ("a" +:+ string_of_bytes
                        (binary.le_bytes (getInodeBestEffort host_nothing "a"))
                  +:+ "b") :: []).
Proof.
  apply (getSharedKeyHintFromInclude_unframed host_nothing "ctx" [] [] "a" "b").
  reflexivity.
Defined.

(** ** The mutex *)

Ltac run_transform :=
  unfold transform, SetMarshalDefaults, AddEnv, Dir, User, Platform;
  run_facade.

Lemma unlock_lock (w : World) :
  gmu w = false -> set_gmu false (set_gmu true w) = w.
Proof. destruct w as [g c n o]. simpl. intros ->. reflexivity. Qed.

(** X9: every operation that takes and releases the mutex itself (that is,
    every one but [RawState] and the release function it hands out),
    started with the mutex free, neither waits nor brings the process down:
    it comes to an end with the mutex free again, also when it panics,
    since the deferred unlock always runs. *)
Theorem facade_releases_gmu (L : LLB) (o : Op) (w : World) :
  gmu w = false ->
  is_RawState o = false ->
  is_Unlock o = false ->
  exists w', run_op L o w = Some w' /\ gmu w' = false.
Proof.
  intros Hg Hraw Hun.
  destruct o as [c|t s]; cbn [run_op].
  - destruct c as [x| |name opts|ref opts|remote ref opts|s| |host s incl];
      cbn [perform]; try discriminate Hraw; try discriminate Hun.
    1-5: run_facade; rewrite Hg; cbn [world_after gmu]; eauto.
    destruct (String.eqb_spec (localName s) "") as [Hn|Hn].
    { rewrite (WithInclude_passthrough host s incl w Hg Hn).
      cbn [world_after]. eauto. }
    destruct (fixIncl incl) as [incl'|] eqn:Hfix.
    2:{ destruct (WithInclude_panics host s incl w Hg Hn Hfix)
          as (w0 & E & Hg0 & _).
        rewrite E. cbn [world_after]. eauto. }
    pose proof (getSharedKeyHintFromInclude_eq host (localName s) incl') as Hkey.
    set (key := hex.EncodeToString _) in Hkey.
    destruct (withincludCache w !! key) as [hit|] eqn:Hlook.
    + destruct (WithInclude_hit host s incl incl' key hit w Hg Hn Hfix Hkey Hlook)
        as (w0 & E & Hg0 & _).
      rewrite E. cbn [world_after]. eauto.
    + destruct (WithInclude_miss host s incl incl' key w Hg Hn Hfix Hkey Hlook)
        as (w0 & E & Hg0 & _).
      rewrite E. cbn [world_after]. eauto.
  - destruct t; run_transform; rewrite Hg; cbn [world_after gmu]; eauto.
Qed.

Lemma facade_releases_gmu_witness :
  exists w',
    run_op llb_inert (OCall (CWithInclude host_nothing demo.ctx [""])) demo.w1
    = Some w'
    /\ gmu w' = false.
Proof.
  apply (facade_releases_gmu llb_inert
           (OCall (CWithInclude host_nothing demo.ctx [""])) demo.w1);
    reflexivity.
Defined.




(** ** How WithInclude can end *)

(** X11: with the mutex free, [WithInclude] never waits; it panics exactly
    when the receiver is local and the include list contains the empty
    pattern, and then the cache and the node count are as before and the
    mutex is free. *)
Theorem WithInclude_panics_iff (host : Host) (s : State) (incl : list string)
    (w : World) :
  gmu w = false ->
  WithInclude host s incl w <> Blocked
  /\ ((exists w', WithInclude host s incl w = Panicked w')
      <-> (localName s <> "" /\ In "" incl))
  /\ (forall w', WithInclude host s incl w = Panicked w' ->
        gmu w' = false
        /\ withincludCache w' = withincludCache w
        /\ llb_nodes w' = llb_nodes w).
Proof.
  intros Hg.
  destruct (String.eqb_spec (localName s) "") as [Hn|Hn].
  { rewrite (WithInclude_passthrough host s incl w Hg Hn).
    split; [discriminate|]. split.
    - split; [intros [w' H]; discriminate | intros [H _]; contradiction].
    - intros w' H. discriminate. }
  destruct (fixIncl incl) as [incl'|] eqn:Hfix.
  2:{ destruct (WithInclude_panics host s incl w Hg Hn Hfix)
        as (w0 & E & Hg0 & Hc & Hl).
      rewrite E. split; [discriminate|]. split.
      - split; [|eauto]. intros _. split; [exact Hn|].
        now apply fixIncl_None.
      - intros w' H. injection H as <-. auto. }
  assert (Hnot : ~ In "" incl).
  { intros Hin. apply fixIncl_None in Hin. congruence. }
  pose proof (getSharedKeyHintFromInclude_eq host (localName s) incl') as Hkey.
  set (key := hex.EncodeToString _) in Hkey.
  destruct (withincludCache w !! key) as [hit|] eqn:Hlook.
  - destruct (WithInclude_hit host s incl incl' key hit w Hg Hn Hfix Hkey Hlook)
      as (w0 & E & _).
    rewrite E. split; [discriminate|]. split.
    + split; [intros [w' H]; discriminate | intros [_ H]; contradiction].
    + intros w' H. discriminate.
  - destruct (WithInclude_miss host s incl incl' key w Hg Hn Hfix Hkey Hlook)
      as (w0 & E & _).
    rewrite E. split; [discriminate|]. split.
    + split; [intros [w' H]; discriminate | intros [_ H]; contradiction].
    + intros w' H. discriminate.
Qed.

Lemma WithInclude_panics_iff_witness :
  WithInclude host_nothing demo.ctx ["src"; ""] demo.w1 <> Blocked
  /\ ((exists w', WithInclude host_nothing demo.ctx ["src"; ""] demo.w1
                  = Panicked w')
      <-> (localName demo.ctx <> "" /\ In "" ["src"; ""]))
  /\ (forall w', WithInclude host_nothing demo.ctx ["src"; ""] demo.w1
                 = Panicked w' ->
        gmu w' = false
        /\ withincludCache w' = withincludCache demo.w1
        /\ llb_nodes w' = llb_nodes demo.w1).
Proof.
  apply (WithInclude_panics_iff host_nothing demo.ctx ["src"; ""] demo.w1).
  reflexivity.
Defined.

(** ** The cache over a whole run *)

(** What one operation does to the cache and to the node count. *)
Lemma run_op_effect (L : LLB) (o : Op) (w w' : World) :
  run_op L o w = Some w' ->
  (llb_nodes w <= llb_nodes w')%nat
  /\ (withincludCache w' = withincludCache w
      \/ exists key s incl,
           localName s <> ""
           /\ withincludCache w !! key = None
           /\ withincludCache w'
              = <[key := filtered (llb_nodes w) s incl key]> (withincludCache w)
           /\ llb_nodes w' = S (llb_nodes w)).
Proof.
  destruct o as [c|t s]; cbn [run_op].
  - destruct c as [x| |name opts|ref opts|remote ref opts|s| |host s incl];
      cbn [perform].
    1-7: run_facade; destruct (gmu w); cbn [world_after];
         intros H; inversion H; subst; cbn [llb_nodes withincludCache];
         (split; [lia | left; reflexivity]).
    destruct (gmu w) eqn:Hg.
    { rewrite (WithInclude_blocked host s incl w Hg). discriminate. }
    destruct (String.eqb_spec (localName s) "") as [Hn|Hn].
    { rewrite (WithInclude_passthrough host s incl w Hg Hn).
      cbn [world_after]. intros H. inversion H.
      cbn [llb_nodes withincludCache]. split; [lia | left; reflexivity]. }
    destruct (fixIncl incl) as [incl'|] eqn:Hfix.
    2:{ destruct (WithInclude_panics host s incl w Hg Hn Hfix)
          as (w0 & E & _ & Hc & Hl).
        rewrite E. cbn [world_after]. intros H. inversion H. subst.
        split; [lia | now left]. }
    pose proof (getSharedKeyHintFromInclude_eq host (localName s) incl') as Hkey.
    set (key := hex.EncodeToString _) in Hkey.
    destruct (withincludCache w !! key) as [hit|] eqn:Hlook.
    + destruct (WithInclude_hit host s incl incl' key hit w Hg Hn Hfix Hkey Hlook)
        as (w0 & E & _ & Hc & Hl).
      rewrite E. cbn [world_after]. intros H. inversion H. subst.
      split; [lia | now left].
    + destruct (WithInclude_miss host s incl incl' key w Hg Hn Hfix Hkey Hlook)
        as (w0 & E & _ & Hc & Hl).
      rewrite E. cbn [world_after]. intros H. inversion H. subst.
      split; [lia|]. right. exists key, s, incl'. auto.
  - destruct t; run_transform; destruct (gmu w); cbn [world_after];
      intros H; inversion H; subst; cbn [llb_nodes withincludCache];
      (split; [lia | left; reflexivity]).
Qed.

Lemma run_op_persist (L : LLB) (o : Op) (w w' : World) (key : string)
    (r : State) :
  run_op L o w = Some w' ->
  withincludCache w !! key = Some r ->
  withincludCache w' !! key = Some r.
Proof.
  intros Hrun Hlook.
  destruct (run_op_effect L o w w' Hrun) as [_ [E|(k & s & incl & _ & Hnone & E & _)]];
    rewrite E; [exact Hlook|].
  rewrite lookup_insert_ne; [exact Hlook|]. intros ->. congruence.
Qed.

Lemma run_ops_persist (L : LLB) (ops : list Op) (w w' : World)
    (key : string) (r : State) :
  run_ops L ops w = Some w' ->
  withincludCache w !! key = Some r ->
  withincludCache w' !! key = Some r.
Proof.
  revert w. induction ops as [|o ops IH]; intros w Hrun Hlook.
  - injection Hrun as <-. exact Hlook.
  - cbn [run_ops] in Hrun.
    destruct (run_op L o w) as [w1|] eqn:E1; [|discriminate].
    apply (IH w1 Hrun). exact (run_op_persist L o w w1 key r E1 Hlook).
Qed.

(** X12: an entry of the cache is never removed and never replaced:
    whatever the client calls afterwards, the key still leads to the same
    State. *)
Theorem cache_entries_persist (L : LLB) (ops : list Op) (w w' : World)
    (key : string) (r : State) :
  run_ops L ops w = Some w' ->
  withincludCache w !! key = Some r ->
  withincludCache w' !! key = Some r.
Proof. exact (run_ops_persist L ops w w' key r). Qed.

Lemma cache_entries_persist_witness :
  withincludCache
    {| gmu := true; withincludCache := withincludCache demo.w1;
       llb_nodes := 3; stdout := stdout demo.w1 |} !! demo.key
  = Some demo.node.
Proof.
  apply (cache_entries_persist llb_inert
           [OCall (CImage "alpine:3" []);
            OTransform (TDir "/src") demo.node;
            OCall (CRawState demo.ctx)]
           demo.w1
           {| gmu := true; withincludCache := withincludCache demo.w1;
              llb_nodes := 3; stdout := stdout demo.w1 |}
           demo.key demo.node);
    reflexivity.
Defined.

Lemma run_op_cache_wf (L : LLB) (o : Op) (w w' : World) :
  cache_wf w -> run_op L o w = Some w' -> cache_wf w'.
Proof.
  intros [Hshape Hdist] Hrun.
  destruct (run_op_effect L o w w' Hrun)
    as [Hle [E|(k & s & incl & Hn & Hnone & E & Hl)]].
  - split.
    + intros key r Hlook. rewrite E in Hlook.
      destruct (Hshape key r Hlook) as (node & name & opts & i & H1 & H2 & H3).
      exists node, name, opts, i. split; [exact H1|]. split; [lia | exact H3].
    + intros k1 k2 r1 r2. rewrite E. apply Hdist.
  - assert (Hold : forall key r, withincludCache w !! key = Some r ->
              node_of (st r) <> Some (llb_nodes w)).
    { intros key r Hlook.
      destruct (Hshape key r Hlook) as (node & name & opts & i & _ & H2 & ->).
      cbn. intros H. injection H as H. lia. }
    split.
    + intros key r Hlook. rewrite E in Hlook.
      destruct (decide (k = key)) as [->|Hne].
      * rewrite lookup_insert_eq in Hlook. injection Hlook as <-.
        exists (llb_nodes w), (localName s), (localOpts s), incl.
        split; [exact Hn|]. split; [lia | reflexivity].
      * rewrite lookup_insert_ne in Hlook by exact Hne.
        destruct (Hshape key r Hlook) as (node & name & opts & i & H1 & H2 & H3).
        exists node, name, opts, i. split; [exact H1|]. split; [lia | exact H3].
    + intros k1 k2 r1 r2 H1 H2 Hnode. rewrite E in H1, H2.
      destruct (decide (k = k1)) as [E1|Hne1];
        destruct (decide (k = k2)) as [E2|Hne2]; try subst k1; try subst k2.
      * reflexivity.
      * rewrite lookup_insert_eq in H1. injection H1 as <-.
        rewrite lookup_insert_ne in H2 by exact Hne2.
        exfalso. apply (Hold k2 r2 H2). rewrite <- Hnode. reflexivity.
      * rewrite lookup_insert_eq in H2. injection H2 as <-.
        rewrite lookup_insert_ne in H1 by exact Hne1.
        exfalso. apply (Hold k1 r1 H1). rewrite Hnode. reflexivity.
      * rewrite lookup_insert_ne in H1 by exact Hne1.
        rewrite lookup_insert_ne in H2 by exact Hne2.
        exact (Hdist k1 k2 r1 r2 H1 H2 Hnode).
Qed.

Lemma run_ops_cache_wf (L : LLB) (ops : list Op) (w w' : World) :
  cache_wf w -> run_ops L ops w = Some w' -> cache_wf w'.
Proof.
  revert w. induction ops as [|o ops IH]; intros w Hwf Hrun.
  - injection Hrun as <-. exact Hwf.
  - cbn [run_ops] in Hrun.
    destruct (run_op L o w) as [w1|] eqn:E1; [|discriminate].
    exact (IH w1 (run_op_cache_wf L o w w1 Hwf E1) Hrun).
Qed.

Lemma init_cache_wf : cache_wf init.
Proof.
  split.
  - intros key r H. unfold init in H. cbn [withincludCache] in H.
    rewrite lookup_empty in H. discriminate.
  - intros k1 k2 r1 r2 H. unfold init in H. cbn [withincludCache] in H.
    rewrite lookup_empty in H. discriminate.
Qed.

(** X13: at any point of any run from the start of the program, every
    State in the cache wraps a local-source node that was built earlier,
    for a name that is not empty, and the last two options of that node are
    the include patterns and, as shared-key hint, the very key the State is
    filed under. *)
Theorem cache_entries_shape (L : LLB) (ops : list Op) (w : World)
    (key : string) (r : State) :
  run_ops L ops init = Some w ->
  withincludCache w !! key = Some r ->
  exists node name opts incl,
    name <> "" /\ (node < llb_nodes w)%nat
    /\ r = {| st := llb.Local node name
                      (opts ++ [llb.IncludePatterns incl; llb.SharedKeyHint key]);
              localName := "";
              localOpts := [] |}.
Proof.
  intros Hrun Hlook.
  exact (proj1 (run_ops_cache_wf L ops init w init_cache_wf Hrun) key r Hlook).
Qed.

(** X14: at any point of any run, two different keys of the cache lead to
    States built on different nodes: every miss has built a node of its
    own. *)
Theorem cache_nodes_distinct (L : LLB) (ops : list Op) (w : World)
    (k1 k2 : string) (r1 r2 : State) :
  run_ops L ops init = Some w ->
  withincludCache w !! k1 = Some r1 ->
  withincludCache w !! k2 = Some r2 ->
  k1 <> k2 ->
  node_of (st r1) <> node_of (st r2).
Proof.
  intros Hrun H1 H2 Hne Hnode. apply Hne.
  exact (proj2 (run_ops_cache_wf L ops init w init_cache_wf Hrun)
           k1 k2 r1 r2 H1 H2 Hnode).
Qed.

Lemma cache_entries_shape_witness :
  exists node name opts incl,
    name <> "" /\ (node < llb_nodes demo2.w2)%nat
    /\ demo2.node_src
       = {| st := llb.Local node name
                    (opts ++ [llb.IncludePatterns incl;
                              llb.SharedKeyHint demo2.key_src]);
            localName := "";
            localOpts := [] |}.
Proof.
  apply (cache_entries_shape llb_inert demo2.ops demo2.w2 demo2.key_src
           demo2.node_src); vm_compute; reflexivity.
Defined.

Lemma cache_nodes_distinct_witness :
  node_of (st demo.node) <> node_of (st demo2.node_src).
Proof.
  apply (cache_nodes_distinct llb_inert demo2.ops demo2.w2
           demo.key demo2.key_src demo.node demo2.node_src).
  - vm_compute. reflexivity.
  - vm_compute. reflexivity.
  - vm_compute. reflexivity.
  - vm_compute. intros H. discriminate H.
Defined.

(** ** Filtering and the other operations *)

Lemma transform_returns (L : LLB) (t : Transform) (s : State) (w : World) :
  gmu w = false ->
  exists x, transform L t s w = Returned (State_of x) w.
Proof.
  intros Hg.
  destruct t; run_transform; rewrite Hg; cbn [gmu];
    fold (set_gmu true w); fold (set_gmu false (set_gmu true w));
    rewrite (unlock_lock w Hg); eexists; reflexivity.
Qed.

(** X15: a chain transformation (SetMarshalDefaults, AddEnv, Dir, User,
    Platform) changes nothing in the world, and the State it returns has
    lost the record of the local source; [WithInclude] on that State
    therefore returns it as it is, without filtering and without touching
    the cache, even when the transformation was applied to a local State. *)
Theorem transform_forgets_local (L : LLB) (t : Transform) (s : State)
    (w : World) :
  gmu w = false ->
  exists r,
    transform L t s w = Returned r w
    /\ localName r = ""
    /\ localOpts r = []
    /\ forall host incl, exists w',
         WithInclude host r incl w = Returned r w'
         /\ withincludCache w' = withincludCache w
         /\ llb_nodes w' = llb_nodes w.
Proof.
  intros Hg. destruct (transform_returns L t s w Hg) as [x E].
  exists (State_of x). split; [exact E|]. split; [reflexivity|].
  split; [reflexivity|].
  intros host incl. eexists. split.
  - exact (WithInclude_passthrough host (State_of x) incl w Hg eq_refl).
  - split; reflexivity.
Qed.

Lemma transform_forgets_local_witness :
  exists r,
    transform llb_inert (TDir "/work") demo.ctx demo.w0 = Returned r demo.w0
    /\ localName r = ""
    /\ localOpts r = []
    /\ forall host incl, exists w',
         WithInclude host r incl demo.w0 = Returned r w'
         /\ withincludCache w' = withincludCache demo.w0
         /\ llb_nodes w' = llb_nodes demo.w0.
Proof.
  apply (transform_forgets_local llb_inert (TDir "/work") demo.ctx demo.w0).
  reflexivity.
Defined.

(** X16: a local source created with the empty name is taken for a
    non-local one: [WithInclude] returns the State that [Local] returned,
    unfiltered, whatever the include list, and stores nothing. *)
Theorem Local_empty_name_not_filtered (opts : list llb.LocalOption)
    (w : World) :
  gmu w = false ->
  exists s w1,
    Local "" opts w = Returned s w1
    /\ st s = llb.Local (llb_nodes w) "" opts
    /\ forall host incl, exists w2,
         WithInclude host s incl w1 = Returned s w2
         /\ withincludCache w2 = withincludCache w.
Proof.
  intros Hg. eexists. eexists. split; [|split].
  - run_facade. rewrite Hg. reflexivity.
  - reflexivity.
  - intros host incl. eexists. split.
    + apply WithInclude_passthrough; reflexivity.
    + reflexivity.
Qed.

Lemma Local_empty_name_not_filtered_witness :
  exists s w1,
    Local "" [llb.SessionID "s1"] init = Returned s w1
    /\ st s = llb.Local (llb_nodes init) "" [llb.SessionID "s1"]
    /\ forall host incl, exists w2,
         WithInclude host s incl w1 = Returned s w2
         /\ withincludCache w2 = withincludCache init.
Proof.
  apply (Local_empty_name_not_filtered [llb.SessionID "s1"] init).
  reflexivity.
Defined.

(** X17: deduplication lasts: once [WithInclude] has returned a State for
    a name and an include list, then after any further calls that leave the
    mutex free, [WithInclude] with the same name and list, on a host
    reporting the same identity numbers for the name and the normalized
    paths, returns that same State and builds nothing. *)
Theorem WithInclude_dedup_lasts (L : LLB) (host host' : Host)
    (s1 s2 : State) (P : list string) (ops : list Op)
    (w w1 w2 : World) (r1 : State) :
  localName s1 <> "" ->
  localName s2 = localName s1 ->
  WithInclude host s1 P w = Returned r1 w1 ->
  run_ops L ops w1 = Some w2 ->
  gmu w2 = false ->
  (forall P' path, fixIncl P = Some P' -> In path (localName s1 :: P') ->
     getInodeBestEffort host' path = getInodeBestEffort host path) ->
  exists w3,
    WithInclude host' s2 P w2 = Returned r1 w3
    /\ withincludCache w3 = withincludCache w2
    /\ llb_nodes w3 = llb_nodes w2.
Proof.
  intros Hn Hname Hret Hrun Hg2 Hsame.
  destruct (WithInclude_returned_inv host s1 P w w1 r1 Hn Hret)
    as (_ & _ & P' & key & Hfix & Hkey & Hlook & _).
  assert (Hkey' : getSharedKeyHintFromInclude host' (localName s2) P' = Some key).
  { rewrite Hname, <- Hkey. apply key_ext_in.
    intros path Hin. exact (Hsame P' path Hfix Hin). }
  assert (Hn2 : localName s2 <> "") by now rewrite Hname.
  pose proof (run_ops_persist L ops w1 w2 key r1 Hrun Hlook) as Hlook2.
  destruct (WithInclude_hit host' s2 P P' key r1 w2 Hg2 Hn2 Hfix Hkey' Hlook2)
    as (w3 & E & _ & Hc & Hl).
  exists w3. auto.
Qed.

Lemma WithInclude_dedup_lasts_witness :
  exists w3,
    WithInclude (host_only "elsewhere" 77) demo.ctx' ["."] demo2.w2
    = Returned demo.node w3
    /\ withincludCache w3 = withincludCache demo2.w2
    /\ llb_nodes w3 = llb_nodes demo2.w2.
Proof.
  apply (WithInclude_dedup_lasts llb_inert host_nothing
           (host_only "elsewhere" 77) demo.ctx demo.ctx' ["."]
           [OTransform (TDir "/work") demo.node;
            OCall (CWithInclude host_nothing demo.ctx ["src"])]
           demo.w0 demo.w1 demo2.w2 demo.node).
  - intros H. discriminate H.
  - reflexivity.
  - vm_compute. reflexivity.
  - vm_compute. reflexivity.
  - reflexivity.
  - intros P' path HP. injection HP as <-.
    intros [<-|[<-|[]]]; reflexivity.
Defined.

(** X18: [Local] followed by [WithInclude] on a miss builds two nodes: the
    one [Local] returned, which is left aside, and a second one for the same
    name whose options are those given to [Local] followed by the include
    patterns and the shared-key hint. *)
Theorem Local_then_WithInclude (host : Host) (name : string)
    (opts : list llb.LocalOption) (incl incl' : list string) (key : string)
    (w : World) :
  gmu w = false ->
  name <> "" ->
  fixIncl incl = Some incl' ->
  getSharedKeyHintFromInclude host name incl' = Some key ->
  withincludCache w !! key = None ->
  exists s w1 w2,
    Local name opts w = Returned s w1
    /\ st s = llb.Local (llb_nodes w) name opts
    /\ WithInclude host s incl w1
       = Returned
           {| st := llb.Local (S (llb_nodes w)) name
                      (opts ++ [llb.IncludePatterns incl';
                                llb.SharedKeyHint key]);
              localName := "";
              localOpts := [] |} w2
    /\ llb_nodes w2 = S (S (llb_nodes w)).
Proof.
  intros Hg Hn Hfix Hkey Hmiss.
  set (s := {| st := llb.Local (llb_nodes w) name opts;
               localName := name; localOpts := opts |}).
  set (w1 := {| gmu := false; withincludCache := withincludCache w;
                llb_nodes := S (llb_nodes w); stdout := stdout w |}).
  assert (EL : Local name opts w = Returned s w1).
  { run_facade. rewrite Hg. reflexivity. }
  destruct (WithInclude_miss host s incl incl' key w1 eq_refl Hn Hfix Hkey Hmiss)
    as (w2 & E & _ & _ & Hl).
  exists s, w1, w2. split; [exact EL|]. split; [reflexivity|].
  split; [exact E | exact Hl].
Qed.

Lemma Local_then_WithInclude_witness :
  exists s w1 w2,
    Local "ctx" [llb.SessionID "s1"] init = Returned s w1
    /\ st s = llb.Local (llb_nodes init) "ctx" [llb.SessionID "s1"]
    /\ WithInclude host_nothing s ["."] w1
       = Returned
           {| st := llb.Local (S (llb_nodes init)) "ctx"
                      ([llb.SessionID "s1"]
                       ++ [llb.IncludePatterns ["./*"];
                           llb.SharedKeyHint demo.key]);
              localName := "";
              localOpts := [] |} w2
    /\ llb_nodes w2 = S (S (llb_nodes init)).
Proof.
  apply (Local_then_WithInclude host_nothing "ctx" [llb.SessionID "s1"]
           ["."] ["./*"] demo.key init).
  - reflexivity.
  - intros H. discriminate H.
  - reflexivity.
  - vm_compute. reflexivity.
  - reflexivity.
Defined.

(** ** Deduplication, from the first call on *)

Lemma WithInclude_first_call (host : Host) (s : State) (P P' : list string)
    (w : World) :
  gmu w = false ->
  localName s <> "" ->
  fixIncl P = Some P' ->
  exists key r w1,
    getSharedKeyHintFromInclude host (localName s) P' = Some key
    /\ WithInclude host s P w = Returned r w1
    /\ gmu w1 = false
    /\ withincludCache w1 !! key = Some r.
Proof.
  intros Hg Hn Hfix.
  pose proof (getSharedKeyHintFromInclude_eq host (localName s) P') as Hkey.
  set (key := hex.EncodeToString _) in Hkey.
  destruct (withincludCache w !! key) as [hit|] eqn:Hlook.
  - destruct (WithInclude_hit host s P P' key hit w Hg Hn Hfix Hkey Hlook)
      as (w1 & E & Hg1 & Hc & _).
    exists key, hit, w1. rewrite Hc. auto.
  - destruct (WithInclude_miss host s P P' key w Hg Hn Hfix Hkey Hlook)
      as (w1 & E & Hg1 & Hc & _).
    exists key, (filtered (llb_nodes w) s P' key), w1.
    rewrite Hc, lookup_insert_eq. auto.
Qed.

(** C4: two sequential calls with the same name and include list are meant
    to return the same State, the second from the cache.  On an include
    list that contains the empty pattern neither call returns a State: the
    first panics in [fixIncl] before the key is computed, nothing is stored,
    and the second panics in the same way. *)
Theorem WithInclude_dedup_empty_pattern (host host' : Host) (s1 s2 : State)
    (P : list string) (w : World) :
  gmu w = false ->
  localName s1 <> "" ->
  localName s2 = localName s1 ->
  In "" P ->
  exists w1 w2,
    WithInclude host s1 P w = Panicked w1
    /\ WithInclude host' s2 P w1 = Panicked w2
    /\ withincludCache w2 = withincludCache w.
Proof.
  intros Hg Hn Hname Hin.
  assert (Hfix : fixIncl P = None) by now apply fixIncl_None.
  destruct (WithInclude_panics host s1 P w Hg Hn Hfix)
    as (w1 & E1 & Hg1 & Hc1 & _).
  assert (Hn2 : localName s2 <> "") by now rewrite Hname.
  destruct (WithInclude_panics host' s2 P w1 Hg1 Hn2 Hfix)
    as (w2 & E2 & _ & Hc2 & _).
  exists w1, w2. split; [exact E1|]. split; [exact E2|].
  now rewrite Hc2, Hc1.
Qed.

Lemma WithInclude_dedup_empty_pattern_witness :
  exists w1 w2,
    WithInclude host_nothing demo.ctx [""] demo.w0 = Panicked w1
    /\ WithInclude host_nothing demo.ctx [""] w1 = Panicked w2
    /\ withincludCache w2 = withincludCache demo.w0.
Proof.
  apply (WithInclude_dedup_empty_pattern host_nothing host_nothing
           demo.ctx demo.ctx [""] demo.w0).
  - reflexivity.
  - intros H. discriminate H.
  - reflexivity.
  - simpl. left. reflexivity.
Defined.

(** X19: on an include list without the empty pattern, with the mutex
    free, [WithInclude] on a local State returns a State and files it in the
    cache under the key; a second call right after it, with the same name
    and list, on a host reporting the same identity numbers for the name
    and the normalized paths, returns that same State, leaves the cache as
    it is and builds no node. *)
Theorem WithInclude_dedup_total (host host' : Host) (s1 s2 : State)
    (P : list string) (w : World) :
  gmu w = false ->
  localName s1 <> "" ->
  localName s2 = localName s1 ->
  ~ In "" P ->
  (forall P' path, fixIncl P = Some P' -> In path (localName s1 :: P') ->
     getInodeBestEffort host' path = getInodeBestEffort host path) ->
  exists P' key r1 w1 w2,
    fixIncl P = Some P'
    /\ getSharedKeyHintFromInclude host (localName s1) P' = Some key
    /\ WithInclude host s1 P w = Returned r1 w1
    /\ withincludCache w1 !! key = Some r1
    /\ WithInclude host' s2 P w1 = Returned r1 w2
    /\ withincludCache w2 = withincludCache w1
    /\ llb_nodes w2 = llb_nodes w1.
Proof.
  intros Hg Hn Hname Hnot Hsame.
  destruct (fixIncl P) as [P'|] eqn:Hfix.
  2:{ exfalso. apply Hnot. now apply fixIncl_None. }
  destruct (WithInclude_first_call host s1 P P' w Hg Hn Hfix)
    as (key & r1 & w1 & Hkey & E1 & Hg1 & Hlook).
  assert (Hkey' : getSharedKeyHintFromInclude host' (localName s2) P' = Some key).
  { rewrite Hname, <- Hkey. apply key_ext_in.
    intros path Hin. exact (Hsame P' path eq_refl Hin). }
  assert (Hn2 : localName s2 <> "") by now rewrite Hname.
  destruct (WithInclude_hit host' s2 P P' key r1 w1 Hg1 Hn2 Hfix Hkey' Hlook)
    as (w2 & E2 & _ & Hc & Hl).
  exists P', key, r1, w1, w2. auto 10.
Qed.

Lemma WithInclude_dedup_total_witness :
  exists P' key r1 w1 w2,
    fixIncl ["."] = Some P'
    /\ getSharedKeyHintFromInclude host_nothing (localName demo.ctx) P'
       = Some key
    /\ WithInclude host_nothing demo.ctx ["."] demo.w0 = Returned r1 w1
    /\ withincludCache w1 !! key = Some r1
    /\ WithInclude demo.locked_down demo.ctx' ["."] w1 = Returned r1 w2
    /\ withincludCache w2 = withincludCache w1
    /\ llb_nodes w2 = llb_nodes w1.
Proof.
  apply (WithInclude_dedup_total host_nothing demo.locked_down
           demo.ctx demo.ctx' ["."] demo.w0).
  - reflexivity.
  - intros H. discriminate H.
  - reflexivity.
  - simpl. intros [H|[]]. discriminate H.
  - intros P' path _ _. reflexivity.
Defined.
